(** * Password and passphrase generator: a shallow embedding

    Embeds [CODIGO/generador_personalizado_contrasenas.py] (and the older
    [CODIGO/code.py], whose [generar_contrasena] is the same function).

    - A Python [str] is the list of its Unicode code points.
    - Exceptions are results: a call either returns a value or raises.
    - [secrets] draws from the operating system's entropy; here the entropy is
      an explicit tape of natural numbers that every draw consumes. *)

From Stdlib Require Import Ascii String.
From Stdlib Require Import List NArith ZArith Bool Lia Floats.
From Stdlib Require Import Reals Lra.
Import ListNotations.

Set Implicit Arguments.

(** ** Strings *)

Module Str.

(** A character is its code point ([ord]). *)
Definition char := N.
Definition pystr := list char.

Definition char_eqb : char -> char -> bool := N.eqb.
Definition eqb (a b : pystr) : bool :=
  if list_eq_dec N.eq_dec a b then true else false.

(** Source literals are UTF-8 ([# -*- coding: utf-8 -*-]); [utf8] decodes
    the bytes of a literal into code points.  Malformed input cannot
    occur in a literal; the decoder stops there. *)
Fixpoint utf8 (bs : list N) : pystr :=
  match bs with
  | [] => []
  | b :: r =>
      if (b <? 128)%N then b :: utf8 r
      else if (b <? 224)%N then
        match r with
        | b1 :: r1 =>
            N.lor (N.shiftl (N.land b 31) 6) (N.land b1 63) :: utf8 r1
        | _ => []
        end
      else if (b <? 240)%N then
        match r with
        | b1 :: b2 :: r2 =>
            N.lor (N.shiftl (N.land b 15) 12)
              (N.lor (N.shiftl (N.land b1 63) 6) (N.land b2 63)) :: utf8 r2
        | _ => []
        end
      else
        match r with
        | b1 :: b2 :: b3 :: r3 =>
            N.lor (N.shiftl (N.land b 7) 18)
              (N.lor (N.shiftl (N.land b1 63) 12)
                 (N.lor (N.shiftl (N.land b2 63) 6) (N.land b3 63))) :: utf8 r3
        | _ => []
        end
  end.

Definition lit (s : string) : pystr :=
  utf8 (map N_of_ascii (list_ascii_of_string s)).

(** [sep.join(parts)] *)
Fixpoint join (sep : pystr) (parts : list pystr) : pystr :=
  match parts with
  | [] => []
  | [p] => p
  | p :: rest => p ++ sep ++ join sep rest
  end.

(** Indexing or iterating a [str] yields one-character strings. *)
Definition items (s : pystr) : list pystr := map (fun c => [c]) s.

(** [s.split(sep)] for a one-character separator: never the empty list. *)
Fixpoint split (sep : char) (s : pystr) : list pystr :=
  match s with
  | [] => [[]]
  | c :: r =>
      if char_eqb c sep then [] :: split sep r
      else match split sep r with
           | [] => [[c]]
           | p :: ps => (c :: p) :: ps
           end
  end.

(** [str.isspace] of one character, which is what [str.strip()] removes:
    the code points CPython lists as Unicode white space. *)
Definition isspace (c : char) : bool :=
  ((9 <=? c) && (c <=? 13) || (28 <=? c) && (c <=? 32)
   || (c =? 133) || (c =? 160) || (c =? 5760)
   || (8192 <=? c) && (c <=? 8202)
   || (c =? 8232) || (c =? 8233) || (c =? 8239) || (c =? 8287)
   || (c =? 12288))%N.

Fixpoint lstrip (s : pystr) : pystr :=
  match s with
  | c :: r => if isspace c then lstrip r else s
  | [] => []
  end.

Definition rstrip (s : pystr) : pystr := rev (lstrip (rev s)).

(** [s.strip()] *)
Definition strip (s : pystr) : pystr := rstrip (lstrip s).

End Str.
Import Str.

(** ** Exceptions and the sampling monad *)

(** The exception classes the program raises or meets.  Messages are not
    modelled. *)
Inductive exn : Type :=
| ValueError
| RuntimeError
| IndexError
| UnicodeEncodeError.

Inductive outcome (A : Type) : Type :=
| Return (a : A)
| Raise (e : exn).
Arguments Return {A} a.
Arguments Raise {A} e.

(** The entropy source: an endless tape of raw draws. *)
Definition tape := nat -> nat.
Definition advance (t : tape) : tape := fun i => t (S i).

(** A computation that may consume entropy and may raise. *)
Definition M (A : Type) : Type := tape -> outcome (A * tape).

Definition ret {A} (a : A) : M A := fun t => Return (a, t).
Definition raise {A} (e : exn) : M A := fun _ => Raise e.
Definition bind {A B} (m : M A) (k : A -> M B) : M B :=
  fun t => match m t with
           | Return (a, t') => k a t'
           | Raise e => Raise e
           end.

Notation "x <- m ;; k" := (bind m (fun x => k))
  (at level 61, m at next level, right associativity).

(** The value a computation returns, the tape forgotten. *)
Definition value {A} (o : outcome (A * tape)) : outcome A :=
  match o with
  | Return (a, _) => Return a
  | Raise e => Raise e
  end.

(** [secrets.randbelow(n)], for [n > 0]: an index below [n].  The library
    gets it from the operating system's bits by rejection sampling; here a
    cell of the tape, reduced below [n], stands for the index it arrives at,
    so every index below [n] is the result for some tape and no other value
    is.  How many bits the library uses for it is not modelled. *)
Definition randbelow (n : nat) : M nat :=
  fun t => Return (t 0 mod n, advance t).

(** [secrets.choice(seq)]: [IndexError] on an empty sequence, else
    [seq[randbelow(len(seq))]]. *)
Definition choice {A} (seq : list A) : M A :=
  match seq with
  | [] => raise IndexError
  | _ :: _ =>
      k <- randbelow (length seq) ;;
      match nth_error seq k with
      | Some x => ret x
      | None => raise IndexError
      end
  end.

(** [len(range(n))]: a non-positive stop gives the empty range. *)
Definition range_len (n : Z) : nat := Z.to_nat n.

(** The generator expression [(m for _ in range(n))], run to a list. *)
Fixpoint times {A} (n : nat) (m : M A) : M (list A) :=
  match n with
  | O => ret []
  | S k => x <- m ;; xs <- times k m ;; ret (x :: xs)
  end.

(** ** Password generation *)

Definition ascii_lowercase : pystr := lit "abcdefghijklmnopqrstuvwxyz".
Definition ascii_uppercase : pystr := lit "ABCDEFGHIJKLMNOPQRSTUVWXYZ".
Definition digits : pystr := lit "0123456789".
Definition symbols : pystr := lit "!@#$%&*()-_=+[]{};:,.<>?/".

(** The pool as the four [if]s build it. *)
Definition build_pool (minus mayus digitos simbolos : bool) : pystr :=
  let pool := [] in
  let pool := if minus then pool ++ ascii_lowercase else pool in
  let pool := if mayus then pool ++ ascii_uppercase else pool in
  let pool := if digitos then pool ++ digits else pool in
  let pool := if simbolos then pool ++ symbols else pool in
  pool.

Definition generar_contrasena
    (longitud : Z) (minus mayus digitos simbolos : bool) : M pystr :=
  let pool := build_pool minus mayus digitos simbolos in
  match pool with
  | [] => raise ValueError
  | _ :: _ =>
      cs <- times (range_len longitud) (choice (items pool)) ;;
      ret (join [] cs)
  end.

(** ** Passphrases *)

Definition DEFAULT_EMBEDDED_WORDLIST : list pystr :=
  map lit
    [ "sol"; "luna"; "estrella"; "gato"; "perro"; "viento"; "mar"; "roca";
      "fuego"; "río"; "árbol"; "montaña"; "nube"; "lluvia"; "campo"; "ciudad";
      "puerta"; "libro"; "camino"; "puente"; "reloj"; "puñado"; "llave"; "cielo"
    ]%string.

(** An HTTP response as [pwned_count] reads it. *)
Record response : Type := { status_code : Z; text : pystr }.

(** What the program asks of the outside world.
    - [read_text path]: the whole text of the file opened with
      [open(path, "r", encoding="utf-8")], newlines translated, or [None]
      when opening, reading or decoding raises.
    - [REQUESTS_AVAILABLE]: whether [import requests] succeeded.
    - [requests_get url]: the response of [requests.get(url, timeout=10)],
      or [None] when it raises.
    - [py_int s]: the builtin [int(s)] on a string; [None] is [ValueError]. *)
Record World : Type := {
  read_text : pystr -> option pystr;
  REQUESTS_AVAILABLE : bool;
  requests_get : pystr -> option response;
  py_int : pystr -> option Z
}.

(** The lines a text file yields when iterated: each keeps its newline, the
    last one may lack it. *)
Fixpoint readlines (txt : pystr) : list pystr :=
  match txt with
  | [] => []
  | c :: r =>
      if char_eqb c 10%N then [c] :: readlines r
      else match readlines r with
           | [] => [[c]]
           | l :: ls => (c :: l) :: ls
           end
  end.

(** Truth value of a string: [if s]. *)
Definition nonempty (s : pystr) : bool :=
  match s with [] => false | _ :: _ => true end.

(** [[w.strip() for w in f if w.strip()]] *)
Definition stripped_lines (txt : pystr) : list pystr :=
  map strip (filter (fun l => nonempty (strip l)) (readlines txt)).

(** The word list [generar_passphrase] draws from, or the error of reading
    it: lines 63 to 71. *)
Definition load_words (w : World) (wordlist_path : option pystr)
  : outcome (list pystr) :=
  let words := [] in
  let loaded :=
    match wordlist_path with
    | Some path =>
        if nonempty path then
          match read_text w path with
          | Some txt => Return (stripped_lines txt)
          | None => Raise RuntimeError
          end
        else Return words
    | None => Return words
    end in
  match loaded with
  | Return [] => Return DEFAULT_EMBEDDED_WORDLIST
  | other => other
  end.

Definition space : char := 32%N.

Definition generar_passphrase
    (w : World) (palabras : Z) (wordlist_path : option pystr) : M pystr :=
  match load_words w wordlist_path with
  | Raise e => raise e
  | Return words =>
      ws <- times (range_len palabras) (choice words) ;;
      ret (join [space] ws)
  end.

(** ** The command line driver: the generation step of [main] *)

(** The parsed arguments that generation and the breach check read.  The
    flags that only choose the output format are left out. *)
Record Args : Type := {
  longitud : Z;
  no_minus : bool;
  no_mayus : bool;
  no_digitos : bool;
  simbolos : bool;
  count : Z;
  passphrase : bool;
  words : Z;
  wordlist : option pystr;
  check_pwned : bool
}.

(** Whether the flags leave a category enabled. *)
Definition enabled (a : Args) : bool :=
  negb (no_minus a) || negb (no_mayus a) || negb (no_digitos a) || simbolos a.

(** How a stretch of a driver ends: normally, by [sys.exit(code)], or by an
    exception nobody catches. *)
Inductive ending : Type :=
| Completed
| SysExit (code : Z)
| Uncaught (e : exn).

(** The first statement of an iteration, lines 245 to 262: the value it
    generates, or how it ends the run.  Passphrase mode catches every
    exception, password mode catches [ValueError]; both then [sys.exit(1)].
    What the iteration does with the value afterwards (lines 264 to 294) is
    not part of this step. *)
Definition generate (w : World) (a : Args) (t : tape)
  : (pystr * tape) + ending :=
  if passphrase a then
    match generar_passphrase w (words a) (wordlist a) t with
    | Return r => inl r
    | Raise _ => inr (SysExit 1)
    end
  else
    match generar_contrasena (longitud a) (negb (no_minus a))
            (negb (no_mayus a)) (negb (no_digitos a)) (simbolos a) t with
    | Return r => inl r
    | Raise ValueError => inr (SysExit 1)
    | Raise e => inr (Uncaught e)
    end.

(** The number of iterations the loop header asks for, line 244:
    [for _ in range(max(1, args.count))]. *)
Definition iterations (a : Args) : nat := range_len (Z.max 1 (count a)).

(** ** SHA-1 and UTF-8 encoding, as [hashlib] and [str.encode] provide them *)

Module SHA1.
Local Open Scope N_scope.

Definition mask32 (x : N) : N := N.land x 0xFFFFFFFF.
Definition add32 (a b : N) : N := mask32 (a + b).
Definition rotl (n x : N) : N :=
  mask32 (N.lor (N.shiftl x n) (N.shiftr x (32 - n))).
Definition not32 (x : N) : N := N.lxor x 0xFFFFFFFF.

(** [n] bytes of [x], most significant first. *)
Fixpoint be_bytes (n : nat) (x : N) : list N :=
  match n with
  | O => []
  | S k => be_bytes k (x / 256) ++ [x mod 256]
  end.

(** The message, a one bit, zeros up to 56 modulo 64, the bit length. *)
Definition pad (msg : list N) : list N :=
  let l := List.length msg in
  let zeros := ((119 - l mod 64) mod 64)%nat in
  msg ++ [0x80] ++ repeat 0 zeros ++ be_bytes 8 (8 * N.of_nat l).

Fixpoint words (bs : list N) : list N :=
  match bs with
  | a :: b :: c :: d :: r =>
      N.lor (N.shiftl a 24) (N.lor (N.shiftl b 16) (N.lor (N.shiftl c 8) d))
      :: words r
  | _ => []
  end.

(** The message schedule, newest word first. *)
Fixpoint extend (n : nat) (rw : list N) : list N :=
  match n with
  | O => rw
  | S k =>
      let x := N.lxor (nth 2 rw 0)
                 (N.lxor (nth 7 rw 0) (N.lxor (nth 13 rw 0) (nth 15 rw 0))) in
      extend k (rotl 1 x :: rw)
  end.

Definition schedule (block : list N) : list N := rev (extend 64 (rev block)).

Definition regs : Type := (N * N * N * N * N)%type.

Definition round (i : nat) (w : N) (r : regs) : regs :=
  let '(a, b, c, d, e) := r in
  let '(f, k) :=
    if (i <? 20)%nat then
      (N.lor (N.land b c) (N.land (not32 b) d), 0x5A827999)
    else if (i <? 40)%nat then
      (N.lxor b (N.lxor c d), 0x6ED9EBA1)
    else if (i <? 60)%nat then
      (N.lor (N.land b c) (N.lor (N.land b d) (N.land c d)), 0x8F1BBCDC)
    else
      (N.lxor b (N.lxor c d), 0xCA62C1D6) in
  let temp := add32 (add32 (add32 (add32 (rotl 5 a) f) e) k) w in
  (temp, a, rotl 30 b, c, d).

Fixpoint rounds (i : nat) (ws : list N) (r : regs) : regs :=
  match ws with
  | [] => r
  | w :: rest => rounds (S i) rest (round i w r)
  end.

Definition compress (h : regs) (block : list N) : regs :=
  let '(h0, h1, h2, h3, h4) := h in
  let '(a, b, c, d, e) := rounds 0 (schedule block) h in
  (add32 h0 a, add32 h1 b, add32 h2 c, add32 h3 d, add32 h4 e).

Fixpoint blocks (fuel : nat) (ws : list N) (h : regs) : regs :=
  match fuel, ws with
  | S f, _ :: _ => blocks f (skipn 16 ws) (compress h (firstn 16 ws))
  | _, _ => h
  end.

Definition init : regs :=
  (0x67452301, 0xEFCDAB89, 0x98BADCFE, 0x10325476, 0xC3D2E1F0).

Definition digest (msg : list N) : list N :=
  let ws := words (pad msg) in
  let '(h0, h1, h2, h3, h4) := blocks (List.length ws) ws init in
  be_bytes 4 h0 ++ be_bytes 4 h1 ++ be_bytes 4 h2 ++ be_bytes 4 h3
    ++ be_bytes 4 h4.

Definition hexdigit (d : N) : char :=
  if d <? 10 then 48 + d else 87 + d.

(** [hashlib.sha1(msg).hexdigest()]: forty lowercase hexadecimal digits. *)
Definition hexdigest (msg : list N) : pystr :=
  flat_map (fun b => [hexdigit (b / 16); hexdigit (b mod 16)]) (digest msg).

End SHA1.

(** [s.encode('utf-8')]: a lone surrogate cannot be encoded
    ([UnicodeEncodeError]). *)
Fixpoint encode_utf8 (s : pystr) : option (list N) :=
  match s with
  | [] => Some []
  | c :: r =>
      let bytes :=
        (if c <? 0x80 then Some [c]
         else if c <? 0x800 then
           Some [N.lor 0xC0 (N.shiftr c 6); N.lor 0x80 (N.land c 63)]
         else if (0xD800 <=? c) && (c <=? 0xDFFF) then None
         else if c <? 0x10000 then
           Some [N.lor 0xE0 (N.shiftr c 12);
                 N.lor 0x80 (N.land (N.shiftr c 6) 63);
                 N.lor 0x80 (N.land c 63)]
         else if c <=? 0x10FFFF then
           Some [N.lor 0xF0 (N.shiftr c 18);
                 N.lor 0x80 (N.land (N.shiftr c 12) 63);
                 N.lor 0x80 (N.land (N.shiftr c 6) 63);
                 N.lor 0x80 (N.land c 63)]
         else None)%N in
      match bytes, encode_utf8 r with
      | Some b, Some rest => Some (b ++ rest)
      | _, _ => None
      end
  end.

(** The code points [str.encode('utf-8')] refuses: the surrogates. *)
Definition surrogate (c : char) : bool := ((0xD800 <=? c) && (c <=? 0xDFFF))%N.

(** [s.upper()] on the characters a hexadecimal digest has. *)
Definition upper (s : pystr) : pystr :=
  map (fun c => if (97 <=? c) && (c <=? 122) then c - 32 else c)%N s.

(** ** The breach check *)

(** The characters [str.splitlines] breaks at. *)
Definition linebreak (c : char) : bool :=
  ((10 <=? c) && (c <=? 13) || (28 <=? c) && (c <=? 30)
   || (c =? 133) || (c =? 8232) || (c =? 8233))%N.

(** [s.splitlines()]: a carriage return followed by a line feed is one
    break, and a final break opens no empty line. *)
Fixpoint splitlines (s : pystr) : list pystr :=
  match s with
  | [] => []
  | c :: r =>
      if linebreak c then
        [] :: match r with
              | c' :: r' =>
                  if (c =? 13)%N && (c' =? 10)%N then splitlines r'
                  else splitlines r
              | [] => []
              end
      else match splitlines r with
           | [] => [[c]]
           | l :: ls => (c :: l) :: ls
           end
  end.

Definition colon : char := 58%N.

(** The loop over the response's lines, 133 to 145: the count of the first
    line whose suffix matches, [None] when that count is not an integer,
    0 when no line matches. *)
Fixpoint scan (w : World) (suffix : pystr) (lines : list pystr) : option Z :=
  match lines with
  | [] => Some 0%Z
  | line :: rest =>
      if negb (nonempty line) then scan w suffix rest
      else
        match split colon line with
        | [suf; count] =>
            if Str.eqb suf suffix then
              match py_int w count with
              | Some n => Some n
              | None => None
              end
            else scan w suffix rest
        | _ => scan w suffix rest
        end
  end.

Definition range_url : pystr := lit "https://api.pwnedpasswords.com/range/".

(** The upper-case hexadecimal SHA-1 of the password, line 124. *)
Definition sha1_upper (password : pystr) : outcome pystr :=
  match encode_utf8 password with
  | Some bytes => Return (upper (SHA1.hexdigest bytes))
  | None => Raise UnicodeEncodeError
  end.

(** The URL requested for a digest, lines 125 and 126. *)
Definition url_of (sha1 : pystr) : pystr := range_url ++ firstn 5 sha1.

(** What [pwned_count] sends: the URL of its one request, if it makes one. *)
Definition pwned_request (w : World) (password : pystr) : option pystr :=
  if negb (REQUESTS_AVAILABLE w) then None
  else
    match sha1_upper password with
    | Return sha1 => Some (url_of sha1)
    | Raise _ => None
    end.

(** [pwned_count(password)]; the result [None] is Python's [None]. *)
Definition pwned_count (w : World) (password : pystr) : outcome (option Z) :=
  if negb (REQUESTS_AVAILABLE w) then Return None
  else
    match sha1_upper password with
    | Raise e => Raise e
    | Return sha1 =>
        let prefix := firstn 5 sha1 in
        let suffix := skipn 5 sha1 in
        let url := range_url ++ prefix in
        match requests_get w url with
        | None => Return None
        | Some resp =>
            if negb (status_code resp =? 200)%Z then Return None
            else Return (scan w suffix (splitlines (text resp)))
        end
    end.

(** [entry["pwned_count"]] as [main] fills it, lines 276 to 285: the call is
    under [try ... except Exception], which turns any exception into
    [None]. *)
Definition entry_pwned_count (w : World) (a : Args) (v : pystr) : option Z :=
  if check_pwned a then
    if negb (REQUESTS_AVAILABLE w) then None
    else
      match pwned_count w v with
      | Return r => r
      | Raise _ => None
      end
  else None.

(** ** Entropy *)

(** The float operations [shannon_entropy] uses.  [math.log2] is not among
    the operations of binary64 that the kernel provides, so the estimator is
    written over this interface, each field one operation of the source:
    - [zero]: the literal [0.0];
    - [true_div c n]: [c / n] on integers, [n] not zero;
    - [fmul], [fsub]: [*] and [-] on floats;
    - [of_int n]: the conversion in [entropy * length];
    - [log2 x]: [math.log2(x)], [None] for its [ValueError];
    - [fle]: the order [<=].
    How binary64 rounds these, and what the platform's [log2] returns, is
    not fixed here: what is proved of the estimator holds for every such
    arithmetic, exact binary64 included. *)
Class FloatOps (F : Type) : Type := {
  zero : F;
  true_div : Z -> Z -> F;
  fmul : F -> F -> F;
  fsub : F -> F -> F;
  of_int : Z -> F;
  log2 : F -> option F;
  fle : F -> F -> Prop
}.

(** A [dict] from characters to counts, in insertion order (the order
    [freq.values()] follows). *)
Definition dict := list (char * Z).

(** [freq[ch] = freq.get(ch, 0) + 1] *)
Fixpoint bump (ch : char) (freq : dict) : dict :=
  match freq with
  | [] => [(ch, 0 + 1)%Z]
  | (k, v) :: rest =>
      if char_eqb k ch then (k, v + 1)%Z :: rest
      else (k, v) :: bump ch rest
  end.

Definition values (freq : dict) : list Z := map snd freq.

(** [freq.get(c, 0)] *)
Fixpoint get (freq : dict) (c : char) : Z :=
  match freq with
  | [] => 0
  | (k, v) :: rest => if char_eqb k c then v else get rest c
  end.

(** The dictionary the first loop builds: [for ch in s: freq[ch] = ...]. *)
Definition freq_of (s : pystr) : dict :=
  fold_left (fun freq ch => bump ch freq) s [].

Section Entropy.
Context {F : Type} {ops : FloatOps F}.

(** One pass of the second loop: [p = count / length] and
    [entropy -= p * math.log2(p)]. *)
Definition accumulate (length : Z) (entropy : outcome F) (count : Z)
  : outcome F :=
  match entropy with
  | Raise e => Raise e
  | Return entropy =>
      let p := true_div count length in
      match log2 p with
      | Some l => Return (fsub entropy (fmul p l))
      | None => Raise ValueError
      end
  end.

Definition shannon_entropy (s : pystr) : outcome F :=
  match s with
  | [] => Return zero
  | _ :: _ =>
      let freq := freq_of s in
      let entropy := Return zero in
      let length := Z.of_nat (List.length s) in
      match fold_left (accumulate length) (values freq) entropy with
      | Return entropy => Return (fmul entropy (of_int length))
      | Raise e => Raise e
      end
  end.

End Entropy.

(** The labels, as the strings the function returns. *)
Definition MUY_DEBIL : pystr := lit "Muy débil".
Definition DEBIL : pystr := lit "Débil".
Definition ACEPTABLE : pystr := lit "Aceptable".
Definition FUERTE : pystr := lit "Fuerte".
Definition MUY_FUERTE : pystr := lit "Muy fuerte".

Definition strength_label (entropy_bits : float) : pystr :=
  if (entropy_bits <? 28)%float then MUY_DEBIL
  else if (entropy_bits <? 36)%float then DEBIL
  else if (entropy_bits <? 60)%float then ACEPTABLE
  else if (entropy_bits <? 80)%float then FUERTE
  else MUY_FUERTE.

(** ** What the specification says, for comparison with the code *)

(** The characters a request allows: the union of the alphabets of its
    enabled categories. *)
Definition allowed (minus mayus digitos simbolos : bool) (c : char) : Prop :=
  (minus = true /\ In c ascii_lowercase)
  \/ (mayus = true /\ In c ascii_uppercase)
  \/ (digitos = true /\ In c digits)
  \/ (simbolos = true /\ In c symbols).

(** The word list in effect: the stripped non-blank lines of the file, or
    the embedded list when there is no file or it has no such line. *)
Definition configured_words (w : World) (wordlist_path : option pystr)
  : list pystr :=
  match wordlist_path with
  | Some path =>
      if nonempty path then
        match read_text w path with
        | Some txt => stripped_lines txt
        | None => []
        end
      else []
  | None => []
  end.

Definition words_in_effect (w : World) (wordlist_path : option pystr)
  : list pystr :=
  match configured_words w wordlist_path with
  | [] => DEFAULT_EMBEDDED_WORDLIST
  | ws => ws
  end.

(** The space-separated tokens of a string. *)
Definition tokens (s : pystr) : list pystr := split space s.

(** The distinct characters of a string, in order of first occurrence. *)
Fixpoint distinct (s : pystr) : pystr :=
  match s with
  | [] => []
  | c :: r => c :: filter (fun d => negb (char_eqb d c)) (distinct r)
  end.

(** How often a character occurs in a string. *)
Definition occurrences (c : char) (s : pystr) : Z :=
  Z.of_nat (count_occ N.eq_dec s c).

Section EntropySpec.
Context {F : Type} {ops : FloatOps F}.

(** The observed distribution: [p(c)] for each distinct character. *)
Definition distribution (s : pystr) : list F :=
  map (fun c => true_div (occurrences c s) (Z.of_nat (List.length s)))
    (distinct s).

(** [H = - sum of p * log2 p], each term taken off in turn; [None] when
    a logarithm is undefined. *)
Fixpoint minus_sum (h : F) (ps : list F) : option F :=
  match ps with
  | [] => Some h
  | p :: rest =>
      match log2 p with
      | Some l => minus_sum (fsub h (fmul p l)) rest
      | None => None
      end
  end.

Definition per_symbol_entropy (s : pystr) : option F :=
  minus_sum zero (distribution s).

(** [H * len(s)] *)
Definition total_bits (s : pystr) : option F :=
  match per_symbol_entropy s with
  | Some h => Some (fmul h (of_int (Z.of_nat (List.length s))))
  | None => None
  end.

End EntropySpec.

(** ** Instances used in examples *)

(** Real arithmetic as an instance of the float interface. *)
#[export] Instance real_ops : FloatOps R := {
  zero := 0%R;
  true_div c n := (IZR c / IZR n)%R;
  fmul := Rmult;
  fsub := Rminus;
  of_int := IZR;
  log2 x := if Rlt_dec 0 x then Some (ln x / ln 2)%R else None;
  fle := Rle
}.

(** [int(s)] on plain decimal literals: an optional sign, then ASCII
    digits.  (The builtin also accepts surrounding white space, underscores
    and other decimal digits.)  It serves only as the [py_int] of the
    example worlds below; the theorems are about every [py_int]. *)
Fixpoint decimal (acc : Z) (s : pystr) : option Z :=
  match s with
  | [] => Some acc
  | c :: r =>
      if ((48 <=? c) && (c <=? 57))%N
      then decimal (acc * 10 + Z.of_N (c - 48)) r
      else None
  end.

Definition int_ascii (s : pystr) : option Z :=
  match s with
  | [] => None
  | c :: r =>
      if (c =? 45)%N then
        match r with [] => None | _ => option_map Z.opp (decimal 0 r) end
      else if (c =? 43)%N then
        match r with [] => None | _ => decimal 0 r end
      else decimal 0 s
  end.

(** A world with no files, with the HTTP library, and a service that
    answers every range query with [body]. *)
Definition answering (body : pystr) : World := {|
  read_text := fun _ => None;
  REQUESTS_AVAILABLE := true;
  requests_get := fun _ => Some {| status_code := 200; text := body |};
  py_int := int_ascii
|}.

(** A world whose only file, at any path, has the text [txt]; no HTTP. *)
Definition with_file (txt : pystr) : World := {|
  read_text := fun _ => Some txt;
  REQUESTS_AVAILABLE := false;
  requests_get := fun _ => None;
  py_int := int_ascii
|}.

(** Default password arguments: [-n longitud -c count]. *)
Definition password_args (longitud count : Z) : Args := {|
  longitud := longitud;
  no_minus := false; no_mayus := false; no_digitos := false;
  simbolos := false;
  count := count;
  passphrase := false; words := 5; wordlist := None;
  check_pwned := false
|}.

(** The tape that always draws 0. *)
Definition zeros : tape := fun _ => O.

(** ** The rest of the drivers *)

(** The loop of [CODIGO/code.py], lines 50 to 59: each password is printed
    as it is generated, under no handler, so an exception ends the run
    uncaught.  The list holds what was printed. *)
Fixpoint code_iterate (a : Args) (n : nat) (t : tape) : list pystr * ending :=
  match n with
  | O => ([], Completed)
  | S k =>
      match generar_contrasena (longitud a) (negb (no_minus a))
              (negb (no_mayus a)) (negb (no_digitos a)) (simbolos a) t with
      | Return (v, t') =>
          let (vs, e) := code_iterate a k t' in (v :: vs, e)
      | Raise e => ([], Uncaught e)
      end
  end.

(** [for _ in range(args.count)] *)
Definition code_main (a : Args) (t : tape) : list pystr * ending :=
  code_iterate a (range_len (count a)) t.

(** Where CSV goes. *)
Inductive destination : Type :=
| Stdout
| File (path : pystr).

Definition dash : pystr := lit "-".

(** [csv_path] as [main] computes it from [args.csv], lines 235 to 240. *)
Definition csv_path (csv : option pystr) : option pystr :=
  match csv with
  | Some arg => if Str.eqb (strip arg) dash then None else Some (strip arg)
  | None => None
  end.

(** The branch [salida_csv] takes for its [path], lines 172 to 183, when
    there are records. *)
Definition salida_csv (path : option pystr) : destination :=
  match path with
  | Some p => if nonempty p then File p else Stdout
  | None => Stdout
  end.

(** [if args.csv is not None: salida_csv(results, csv_path)], lines 302 and
    303; [None] when no CSV is written. *)
Definition csv_output (csv : option pystr) : option destination :=
  match csv with
  | Some _ => Some (salida_csv (csv_path csv))
  | None => None
  end.

(** ** Further notions the properties below are stated with *)

(** Whether generation fails in a world: no category enabled in password
    mode, an unreadable word list in passphrase mode. *)
Definition unreadable (w : World) (wordlist_path : option pystr) : bool :=
  match wordlist_path with
  | Some path =>
      nonempty path
      && match read_text w path with Some _ => false | None => true end
  | None => false
  end.

Definition generation_fails (w : World) (a : Args) : bool :=
  if passphrase a then unreadable w (wordlist a) else negb (enabled a).

(** The tape after [n] draws. *)
Fixpoint advance_by (n : nat) (t : tape) : tape :=
  match n with
  | O => t
  | S k => advance_by k (advance t)
  end.

(** The position of a label on the scale, weakest first. *)
Definition label_rank (label : pystr) : nat :=
  if Str.eqb label MUY_DEBIL then 0
  else if Str.eqb label DEBIL then 1
  else if Str.eqb label ACEPTABLE then 2
  else if Str.eqb label FUERTE then 3
  else 4.

(** Upper-case hexadecimal digits. *)
Definition is_upper_hex (c : char) : bool :=
  ((48 <=? c) && (c <=? 57) || (65 <=? c) && (c <=? 70))%N.

Fixpoint sum_Z (l : list Z) : Z :=
  match l with
  | [] => 0
  | x :: r => x + sum_Z r
  end.

(** The tape whose first draw is [i] and whose later draws are those of
    [t]. *)
Definition draw_first (i : nat) (t : tape) : tape :=
  fun k => match k with O => i | S k' => t k' end.

(** A string with something in it and no white space at either end. *)
Definition trimmed (x : pystr) : bool :=
  match x with
  | [] => false
  | c :: _ => negb (isspace c) && negb (isspace (last x c))
  end.

(** The text of a word list file: each word on a line of its own, ended by
    a line feed.  With no carriage return in the words this is also what
    text mode reads from it, newline translation having nothing to do. *)
Definition lines_text (ws : list pystr) : pystr :=
  flat_map (fun x => x ++ [10%N]) ws.

(** * Properties *)

(** ** The sampling monad *)

Lemma choice_returns {A} (x0 : A) (seq : list A) (t : tape) :
  exists x, choice (x0 :: seq) t = Return (x, advance t) /\ In x (x0 :: seq).
Proof.
  unfold choice, bind, randbelow.
  set (l := x0 :: seq).
  assert (Hlt : t 0 mod List.length l < List.length l)
    by (apply Nat.mod_upper_bound; discriminate).
  destruct (nth_error l (t 0 mod List.length l)) as [x|] eqn:E.
  - exists x. split; [reflexivity | eapply nth_error_In; eassumption].
  - apply nth_error_None in E. lia.
Qed.

Lemma choice_In {A} (seq : list A) (t t' : tape) (x : A) :
  choice seq t = Return (x, t') -> In x seq.
Proof.
  destruct seq as [|x0 seq]; [discriminate|].
  destruct (choice_returns x0 seq t) as (y & E & Hin).
  rewrite E. intros [= <- _]. exact Hin.
Qed.

Lemma times_length {A} (m : M A) (n : nat) :
  forall t xs t', times n m t = Return (xs, t') -> List.length xs = n.
Proof.
  induction n as [|n IH]; intros t xs t'; simpl.
  - intros [= <- _]. reflexivity.
  - unfold bind. destruct (m t) as [[x t1]|e]; [|discriminate].
    destruct (times n m t1) as [[ys t2]|e] eqn:E; [|discriminate].
    intros [= <- _]. simpl. f_equal. eapply IH; eassumption.
Qed.

Lemma times_Forall {A} (P : A -> Prop) (m : M A) :
  (forall t x t', m t = Return (x, t') -> P x) ->
  forall n t xs t', times n m t = Return (xs, t') -> Forall P xs.
Proof.
  intros Hm. induction n as [|n IH]; intros t xs t'; simpl.
  - intros [= <- _]. constructor.
  - unfold bind. destruct (m t) as [[x t1]|e] eqn:E1; [|discriminate].
    destruct (times n m t1) as [[ys t2]|e] eqn:E2; [|discriminate].
    intros [= <- _]. constructor; [eapply Hm | eapply IH]; eassumption.
Qed.

Lemma times_returns {A} (m : M A) :
  (forall t, exists x t', m t = Return (x, t')) ->
  forall n t, exists xs t', times n m t = Return (xs, t').
Proof.
  intros Hm. induction n as [|n IH]; intros t; simpl.
  - eexists _, _. reflexivity.
  - unfold bind. destruct (Hm t) as (x & t1 & ->).
    destruct (IH t1) as (xs & t2 & ->). eexists _, _. reflexivity.
Qed.

(** ** Strings *)

Lemma join_empty_items (cs : list pystr) :
  Forall (fun c => List.length c = 1) cs ->
  List.length (join [] cs) = List.length cs.
Proof.
  induction 1 as [|c cs Hc _ IH]; [reflexivity|].
  destruct cs as [|c' cs']; simpl in *; [exact Hc|].
  rewrite length_app, Hc. simpl in IH. rewrite IH. reflexivity.
Qed.

Lemma join_empty_In (pool : pystr) (cs : list pystr) :
  Forall (fun c => In c (items pool)) cs ->
  Forall (fun c => In c pool) (join [] cs).
Proof.
  induction 1 as [|c cs Hc _ IH]; [constructor|].
  assert (Hc' : Forall (fun x => In x pool) c).
  { unfold items in Hc. apply in_map_iff in Hc as (x & <- & Hx).
    constructor; [exact Hx | constructor]. }
  destruct cs as [|c' cs']; simpl in *; [exact Hc'|].
  apply Forall_app. split; assumption.
Qed.

Lemma items_length (pool : pystr) (c : pystr) :
  In c (items pool) -> List.length c = 1.
Proof.
  unfold items. intros H. apply in_map_iff in H as (x & <- & _). reflexivity.
Qed.

(** ** Password generation *)

Lemma In_extend (b : bool) (pool alphabet : pystr) (c : char) :
  In c (if b then pool ++ alphabet else pool) <->
  In c pool \/ (b = true /\ In c alphabet).
Proof.
  destruct b; [rewrite in_app_iff|]; intuition congruence.
Qed.

Lemma build_pool_allowed (minus mayus digitos simbolos : bool) (c : char) :
  In c (build_pool minus mayus digitos simbolos) <->
  allowed minus mayus digitos simbolos c.
Proof.
  unfold build_pool, allowed. cbv zeta.
  rewrite !In_extend. simpl In. tauto.
Qed.

Lemma build_pool_empty (minus mayus digitos simbolos : bool) :
  build_pool minus mayus digitos simbolos = [] <->
  minus || mayus || digitos || simbolos = false.
Proof.
  destruct minus, mayus, digitos, simbolos; vm_compute; split; congruence.
Qed.

(** What a successful call looks like: the draws [cs], one per requested
    position, each a one-character string of the pool. *)
Lemma generar_contrasena_inv (longitud : Z) (minus mayus digitos simbolos : bool)
    (t : tape) (s : pystr) :
  value (generar_contrasena longitud minus mayus digitos simbolos t) = Return s ->
  exists cs,
    s = join [] cs
    /\ List.length cs = range_len longitud
    /\ Forall (fun c => In c (items (build_pool minus mayus digitos simbolos))) cs.
Proof.
  unfold generar_contrasena.
  destruct (build_pool minus mayus digitos simbolos) as [|c0 pool] eqn:Epool;
    [discriminate|].
  unfold bind.
  destruct (times (range_len longitud) (choice (items (c0 :: pool))) t)
    as [[cs t']|e] eqn:E; [|discriminate].
  unfold ret, value. intros [= <-]. exists cs.
  split; [reflexivity|]. split.
  - eapply times_length; eassumption.
  - eapply times_Forall; [|eassumption].
    intros t1 x t2 Hx. eapply choice_In; eassumption.
Qed.

Lemma generar_contrasena_returns (longitud : Z) (minus mayus digitos simbolos : bool)
    (t : tape) :
  minus || mayus || digitos || simbolos = true ->
  exists s t', generar_contrasena longitud minus mayus digitos simbolos t
               = Return (s, t').
Proof.
  intros Hen. unfold generar_contrasena.
  destruct (build_pool minus mayus digitos simbolos) as [|c0 pool] eqn:Epool.
  - apply build_pool_empty in Epool. congruence.
  - unfold bind.
    assert (Hch : forall t1, exists x t2,
               choice (items (c0 :: pool)) t1 = Return (x, t2)).
    { intros t1.
      destruct (choice_returns [c0] (items pool) t1) as (x & E & _).
      eexists _, _. exact E. }
    destruct (times_returns _ Hch (range_len longitud) t) as (cs & t' & ->).
    eexists _, _. reflexivity.
Qed.

(** C1: [generar_contrasena] raises [ValueError] exactly when all four
    categories are disabled; with any category enabled it returns a string,
    whatever the length and the entropy drawn. *)
Theorem generar_contrasena_value_error
    (longitud : Z) (minus mayus digitos simbolos : bool) (t : tape) :
  if minus || mayus || digitos || simbolos
  then exists s, value (generar_contrasena longitud minus mayus digitos simbolos t)
                 = Return s
  else value (generar_contrasena longitud minus mayus digitos simbolos t)
       = Raise ValueError.
Proof.
  destruct (minus || mayus || digitos || simbolos) eqn:Hen.
  - destruct (generar_contrasena_returns longitud _ _ _ _ t Hen) as (s & t' & ->).
    exists s. reflexivity.
  - apply build_pool_empty in Hen. unfold generar_contrasena. rewrite Hen.
    reflexivity.
Qed.

(** C3: every character of a generated password belongs to the union of
    the alphabets of the enabled categories. *)
Theorem generar_contrasena_alphabet
    (longitud : Z) (minus mayus digitos simbolos : bool) (t : tape) (s : pystr) :
  value (generar_contrasena longitud minus mayus digitos simbolos t) = Return s ->
  Forall (allowed minus mayus digitos simbolos) s.
Proof.
  intros H. apply generar_contrasena_inv in H as (cs & -> & _ & Hcs).
  apply join_empty_In in Hcs.
  eapply Forall_impl; [|exact Hcs].
  intros c. apply build_pool_allowed.
Qed.

(** Length 8 over lowercase letters and digits. *)
Lemma generar_contrasena_alphabet_witness :
  exists s,
    value (generar_contrasena 8 true false true false (fun i => 5 * i)) = Return s
    /\ Forall (allowed true false true false) s.
Proof.
  eexists. split; [vm_compute; reflexivity|].
  apply (@generar_contrasena_alphabet 8 true false true false (fun i => 5 * i)).
  vm_compute. reflexivity.
Defined.

(** C4, as the code has it: the returned string has [max(0, longitud)]
    characters, which is [longitud] whenever that is not negative. *)
Theorem generar_contrasena_length
    (longitud : Z) (minus mayus digitos simbolos : bool) (t : tape) (s : pystr) :
  value (generar_contrasena longitud minus mayus digitos simbolos t) = Return s ->
  Z.of_nat (List.length s) = Z.max 0 longitud.
Proof.
  intros H. apply generar_contrasena_inv in H as (cs & -> & Hlen & Hcs).
  rewrite join_empty_items.
  - rewrite Hlen. unfold range_len. lia.
  - eapply Forall_impl; [|exact Hcs]. intros c. apply items_length.
Qed.

Lemma generar_contrasena_length_witness :
  exists s,
    value (generar_contrasena 12 true true true false (fun i => 7 * i)) = Return s
    /\ Z.of_nat (List.length s) = Z.max 0 12.
Proof.
  eexists. split; [vm_compute; reflexivity|].
  apply (@generar_contrasena_length 12 true true true false (fun i => 7 * i)).
  vm_compute. reflexivity.
Defined.

(** C4 as stated fails for a negative length: the call returns the empty
    string, whose length is not the requested one. *)
Lemma generar_contrasena_negative_length :
  exists s,
    value (generar_contrasena (-1) true true true false zeros) = Return s
    /\ Z.of_nat (List.length s) <> (-1)%Z.
Proof.
  exists []. split; [vm_compute; reflexivity | discriminate].
Qed.

(** ** The generation step *)

Lemma generate_password (w : World) (a : Args) (t : tape) :
  passphrase a = false ->
  enabled a = true ->
  exists v t',
    generate w a t = inl (v, t')
    /\ value (generar_contrasena (longitud a) (negb (no_minus a))
                (negb (no_mayus a)) (negb (no_digitos a)) (simbolos a) t)
       = Return v.
Proof.
  intros Hmode Hen. unfold generate. rewrite Hmode.
  destruct (generar_contrasena_returns (longitud a) _ _ _ _ t Hen)
    as (s & t' & ->).
  exists s, t'. split; reflexivity.
Qed.

Lemma nonpositive_length_empty
    (longitud : Z) (minus mayus digitos simbolos : bool) (t : tape) (s : pystr) :
  (longitud <= 0)%Z ->
  value (generar_contrasena longitud minus mayus digitos simbolos t) = Return s ->
  s = [].
Proof.
  intros Hle Hv. apply generar_contrasena_inv in Hv as (cs & -> & Hlen & _).
  unfold range_len in Hlen.
  destruct cs; [reflexivity | simpl in Hlen; lia].
Qed.

(** C2, as the code has it: a non-positive length or count is not rejected.
    With a category enabled [generar_contrasena] returns the empty string
    for a length of 0 or less; the loop header turns a count of 0 or less
    into one iteration; and the generation step of an iteration yields its
    value without reaching [sys.exit(1)]. *)
Theorem nonpositive_request_not_rejected (w : World) (a : Args) (t : tape) :
  passphrase a = false ->
  enabled a = true ->
  (longitud a <= 0 \/ count a <= 0)%Z ->
  ((longitud a <= 0)%Z ->
     value (generar_contrasena (longitud a) (negb (no_minus a))
              (negb (no_mayus a)) (negb (no_digitos a)) (simbolos a) t)
     = Return [])
  /\ ((count a <= 0)%Z -> iterations a = 1)
  /\ (exists v t', generate w a t = inl (v, t'))
  /\ ((longitud a <= 0)%Z -> exists t', generate w a t = inl ([], t')).
Proof.
  intros Hmode Hen _.
  destruct (generate_password w a t Hmode Hen) as (v & t' & Hg & Hv).
  split; [|split; [|split]].
  - intros Hle. rewrite Hv. f_equal.
    eapply nonpositive_length_empty; eassumption.
  - intros Hle. unfold iterations, range_len.
    replace (Z.max 1 (count a)) with 1%Z by lia. reflexivity.
  - exists v, t'. exact Hg.
  - intros Hle. exists t'. rewrite Hg. do 2 f_equal.
    eapply nonpositive_length_empty; eassumption.
Qed.

Lemma nonpositive_request_not_rejected_witness :
  value (generar_contrasena 0 true true true false zeros) = Return []
  /\ iterations (password_args 0 0) = 1
  /\ (exists v t',
        generate (with_file []) (password_args 0 0) zeros = inl (v, t'))
  /\ (exists t',
        generate (with_file []) (password_args 0 0) zeros = inl ([], t')).
Proof.
  destruct (@nonpositive_request_not_rejected (with_file [])
              (password_args 0 0) zeros eq_refl eq_refl
              (or_introl (Z.le_refl 0)))
    as (H1 & H2 & H3 & H4).
  split; [|split; [|split]].
  - apply H1. apply Z.le_refl.
  - apply H2. apply Z.le_refl.
  - exact H3.
  - apply H4. apply Z.le_refl.
Defined.

(** C2 as stated fails: lengths 0 and -5 and counts 0 and -3 are accepted.
    The call returns the empty string, a value and not an error; the loop
    header asks for one iteration; and the generation step of [main] yields
    the empty value instead of reaching [sys.exit(1)]. *)
Lemma nonpositive_length_accepted :
  value (generar_contrasena 0 true true true false zeros) = Return []
  /\ value (generar_contrasena (-5) true true true false zeros) = Return []
  /\ iterations (password_args 12 0) = 1
  /\ iterations (password_args 12 (-3)) = 1
  /\ generate (with_file []) (password_args 0 0) zeros = inl ([], zeros).
Proof.
  repeat split; vm_compute; reflexivity.
Qed.

(** ** Passphrases *)

Lemma load_words_in_effect (w : World) (path : option pystr) (ws : list pystr) :
  load_words w path = Return ws -> ws = words_in_effect w path.
Proof.
  unfold load_words, words_in_effect, configured_words.
  destruct path as [p|]; [|intros [= <-]; reflexivity].
  destruct (nonempty p).
  - destruct (read_text w p) as [txt|]; [|discriminate].
    destruct (stripped_lines txt); intros [= <-]; reflexivity.
  - intros [= <-]. reflexivity.
Qed.

Lemma load_words_nonempty (w : World) (path : option pystr) (ws : list pystr) :
  load_words w path = Return ws -> ws <> [].
Proof.
  unfold load_words.
  destruct path as [p|]; [|intros [= <-]; discriminate].
  destruct (nonempty p).
  - destruct (read_text w p) as [txt|]; [|discriminate].
    destruct (stripped_lines txt); intros [= <-]; discriminate.
  - intros [= <-]. discriminate.
Qed.

Lemma generar_passphrase_inv (w : World) (palabras : Z) (path : option pystr)
    (t : tape) (s : pystr) :
  value (generar_passphrase w palabras path t) = Return s ->
  exists ws,
    s = join [space] ws
    /\ List.length ws = range_len palabras
    /\ Forall (fun x => In x (words_in_effect w path)) ws.
Proof.
  unfold generar_passphrase.
  destruct (load_words w path) as [wl|e] eqn:El; [|discriminate].
  apply load_words_in_effect in El. subst wl. unfold bind.
  destruct (times (range_len palabras) (choice (words_in_effect w path)) t)
    as [[ws t']|e] eqn:E; [|discriminate].
  unfold ret, value. intros [= <-]. exists ws.
  split; [reflexivity|]. split.
  - eapply times_length; eassumption.
  - eapply times_Forall; [|eassumption].
    intros t1 x t2 Hx. eapply choice_In; eassumption.
Qed.

Lemma generar_passphrase_returns (w : World) (palabras : Z) (path : option pystr)
    (t : tape) (wl : list pystr) :
  load_words w path = Return wl ->
  exists s t', generar_passphrase w palabras path t = Return (s, t').
Proof.
  intros El. unfold generar_passphrase. rewrite El.
  destruct wl as [|x0 wl]; [apply load_words_nonempty in El; contradiction|].
  assert (Hch : forall t1, exists x t2, choice (x0 :: wl) t1 = Return (x, t2)).
  { intros t1. destruct (choice_returns x0 wl t1) as (x & E & _).
    eexists _, _. exact E. }
  unfold bind.
  destruct (times_returns _ Hch (range_len palabras) t) as (ws & t' & ->).
  eexists _, _. reflexivity.
Qed.

(** Splitting undoes joining when no word holds the separator. *)
Lemma split_word (sep : char) (p : pystr) :
  ~ In sep p -> split sep p = [p].
Proof.
  induction p as [|c p IH]; [reflexivity|]. intros Hn. simpl.
  destruct (char_eqb c sep) eqn:E.
  - apply N.eqb_eq in E. subst. exfalso. apply Hn. left. reflexivity.
  - rewrite IH; [reflexivity|]. intros H. apply Hn. right. exact H.
Qed.

Lemma split_app (sep : char) (p rest : pystr) :
  ~ In sep p -> split sep (p ++ sep :: rest) = p :: split sep rest.
Proof.
  induction p as [|c p IH]; intros Hn; simpl.
  - unfold char_eqb. rewrite N.eqb_refl. reflexivity.
  - destruct (char_eqb c sep) eqn:E.
    + apply N.eqb_eq in E. subst. exfalso. apply Hn. left. reflexivity.
    + rewrite IH; [reflexivity|]. intros H. apply Hn. right. exact H.
Qed.

Lemma split_join (sep : char) (ws : list pystr) :
  ws <> [] ->
  Forall (fun x => ~ In sep x) ws ->
  split sep (join [sep] ws) = ws.
Proof.
  intros Hne H. induction H as [|x ws Hx Hws IH]; [contradiction|].
  destruct ws as [|y ws'].
  - simpl. apply split_word. exact Hx.
  - change (join [sep] (x :: y :: ws')) with (x ++ sep :: join [sep] (y :: ws')).
    rewrite split_app by exact Hx. f_equal. apply IH. discriminate.
Qed.

(** C5, as the code has it: a returned passphrase is the join, with single
    spaces, of [max(0, palabras)] words, each drawn from the word list in
    effect; when at least one word is requested and no word of that list
    holds a space, its space-separated tokens are exactly those words. *)
Theorem generar_passphrase_tokens (w : World) (palabras : Z)
    (wordlist_path : option pystr) (t : tape) (s : pystr) :
  value (generar_passphrase w palabras wordlist_path t) = Return s ->
  exists ws,
    s = join [space] ws
    /\ Z.of_nat (List.length ws) = Z.max 0 palabras
    /\ Forall (fun x => In x (words_in_effect w wordlist_path)) ws
    /\ ((1 <= palabras)%Z ->
        Forall (fun x => ~ In space x) (words_in_effect w wordlist_path) ->
        tokens s = ws).
Proof.
  intros H. apply generar_passphrase_inv in H as (ws & -> & Hlen & Hws).
  exists ws. split; [reflexivity|]. split; [|split].
  - rewrite Hlen. unfold range_len. lia.
  - exact Hws.
  - intros Hpos Hclean. unfold tokens. apply split_join.
    + intros ->. simpl in Hlen. unfold range_len in Hlen. lia.
    + rewrite Forall_forall in *. intros x Hx. apply Hclean, Hws, Hx.
Qed.

(** Three words from the file [a], [b], [c], one per line. *)
Lemma generar_passphrase_tokens_witness :
  exists s ws,
    value (generar_passphrase (with_file (lit "a
b
c
")) 3 (Some (lit "words.txt")) (fun i => i)) = Return s
    /\ s = join [space] ws
    /\ Z.of_nat (List.length ws) = Z.max 0 3
    /\ tokens s = ws.
Proof.
  destruct (@generar_passphrase_tokens (with_file (lit "a
b
c
")) 3 (Some (lit "words.txt")) (fun i => i) (lit "a b c"))
    as (ws & Hs & Hlen & _ & Htok).
  - vm_compute. reflexivity.
  - exists (lit "a b c"), ws. split; [vm_compute; reflexivity|].
    split; [exact Hs|]. split; [exact Hlen|].
    apply Htok; [lia|].
    vm_compute. repeat constructor; intros H; intuition discriminate.
Defined.

(** C5 as stated fails in two ways.  A line of the file may hold a space:
    one word drawn from the file [a b] gives two tokens, neither of them in
    the word list.  And for a negative word count the call returns the empty
    string, which cannot have that many tokens. *)
Lemma generar_passphrase_token_count_fails :
  (exists s,
     value (generar_passphrase (with_file (lit "a b
")) 1 (Some (lit "words.txt")) zeros) = Return s
     /\ words_in_effect (with_file (lit "a b
")) (Some (lit "words.txt")) = [lit "a b"]
     /\ tokens s = [lit "a"; lit "b"]
     /\ Z.of_nat (List.length (tokens s)) <> 1%Z
     /\ ~ Forall (fun x => In x [lit "a b"]) (tokens s))
  /\ (exists s,
        value (generar_passphrase (with_file []) (-1) None zeros) = Return s
        /\ Z.of_nat (List.length (tokens s)) <> (-1)%Z).
Proof.
  split.
  - exists (lit "a b"). split; [vm_compute; reflexivity|].
    split; [vm_compute; reflexivity|].
    split; [vm_compute; reflexivity|].
    split; [vm_compute; discriminate|].
    intros H. apply Forall_inv in H. vm_compute in H.
    destruct H as [H|[]]. discriminate H.
  - exists []. split; [vm_compute; reflexivity|]. lia.
Qed.

Lemma blank_lines_strip_to_nothing (txt : pystr) :
  Forall (fun l => strip l = []) (readlines txt) -> stripped_lines txt = [].
Proof.
  unfold stripped_lines. intros H.
  induction H as [|l ls Hl _ IH]; [reflexivity|].
  simpl. rewrite Hl. simpl. exact IH.
Qed.

Lemma default_words_have_no_space (x : pystr) :
  In x DEFAULT_EMBEDDED_WORDLIST -> ~ In space x.
Proof.
  revert x. apply Forall_forall.
  vm_compute. repeat constructor; intros H; intuition discriminate.
Qed.

(** C10: when the word list file is read and every line of it is blank
    once stripped, [generar_passphrase] does not fail; it returns words of
    the embedded default list, joined with single spaces. *)
Theorem blank_wordlist_falls_back (w : World) (palabras : Z)
    (path txt : pystr) (t : tape) :
  nonempty path = true ->
  read_text w path = Some txt ->
  Forall (fun l => strip l = []) (readlines txt) ->
  exists ws,
    value (generar_passphrase w palabras (Some path) t) = Return (join [space] ws)
    /\ List.length ws = range_len palabras
    /\ Forall (fun x => In x DEFAULT_EMBEDDED_WORDLIST) ws
    /\ ((1 <= palabras)%Z -> tokens (join [space] ws) = ws).
Proof.
  intros Hpath Hread Hblank.
  assert (El : load_words w (Some path) = Return DEFAULT_EMBEDDED_WORDLIST).
  { unfold load_words. rewrite Hpath, Hread.
    rewrite (blank_lines_strip_to_nothing _ Hblank). reflexivity. }
  assert (Heff : words_in_effect w (Some path) = DEFAULT_EMBEDDED_WORDLIST).
  { symmetry. apply load_words_in_effect. exact El. }
  destruct (generar_passphrase_returns w palabras (Some path) t El)
    as (s & t' & E).
  assert (Hv : value (generar_passphrase w palabras (Some path) t) = Return s)
    by (rewrite E; reflexivity).
  destruct (generar_passphrase_inv _ _ _ _ Hv) as (ws & -> & Hlen & Hws).
  rewrite Heff in Hws.
  exists ws. split; [exact Hv|]. split; [exact Hlen|]. split; [exact Hws|].
  intros Hpos. unfold tokens. apply split_join.
  - intros ->. simpl in Hlen. unfold range_len in Hlen. lia.
  - rewrite Forall_forall in *. intros x Hx.
    apply default_words_have_no_space, Hws, Hx.
Qed.

(** A file of blank lines: a newline, two spaces, a tab. *)
Lemma blank_wordlist_falls_back_witness :
  exists ws,
    value (generar_passphrase (with_file [10; 32; 32; 10; 9; 10]%N) 3
             (Some (lit "words.txt")) (fun i => 9 * i))
    = Return (join [space] ws)
    /\ List.length ws = range_len 3
    /\ Forall (fun x => In x DEFAULT_EMBEDDED_WORDLIST) ws
    /\ ((1 <= 3)%Z -> tokens (join [space] ws) = ws).
Proof.
  apply (@blank_wordlist_falls_back (with_file [10; 32; 32; 10; 9; 10]%N) 3
           (lit "words.txt") [10; 32; 32; 10; 9; 10]%N (fun i => 9 * i)).
  - reflexivity.
  - reflexivity.
  - vm_compute. repeat constructor.
Defined.

(** ** Strength labels *)

Ltac cmp_cases :=
  repeat match goal with
    | H : context [(?a ?= ?b)%Z] |- _ => destruct (Z.compare_spec a b)
    | |- context [(?a ?= ?b)%Z] => destruct (Z.compare_spec a b)
    | H : context [(?a ?= ?b)%positive] |- _ => destruct (Pos.compare_spec a b)
    | |- context [(?a ?= ?b)%positive] => destruct (Pos.compare_spec a b)
    end.

(** The order of binary64 values is transitive across [<=] and [<]. *)
Lemma SF_le_lt_trans (a x b : spec_float) :
  SFleb a x = true -> SFltb x b = true -> SFltb a b = true.
Proof.
  unfold SFleb, SFltb, SFcompare.
  change (Pos.compare_cont Eq) with Pos.compare.
  destruct a as [sa|sa| |sa ma ea], x as [sx|sx| |sx mx ex],
    b as [sb|sb| |sb mb eb];
    try destruct sa; try destruct sx; try destruct sb;
    try discriminate; try reflexivity;
    intros H1 H2; try discriminate H1; try discriminate H2.
  all: cmp_cases; subst; simpl in *;
    try discriminate; try reflexivity; try lia.
Qed.

(** A value at or above [c] is not below any [b] that [c] is not below. *)
Lemma not_below (c b x : float) :
  (c <=? x)%float = true -> (c <? b)%float = false -> (x <? b)%float = false.
Proof.
  rewrite leb_spec, !ltb_spec. intros Hle Hcb.
  destruct (SFltb (Prim2SF x) (Prim2SF b)) eqn:E; [|reflexivity].
  rewrite (SF_le_lt_trans _ _ _ Hle E) in Hcb. discriminate.
Qed.

(** C7: [strength_label] maps every float to one of the five labels, which
    are distinct, by the fixed thresholds; each of 28, 36, 60 and 80 falls in
    the higher bracket. *)
Theorem strength_label_thresholds (entropy_bits : float) :
  In (strength_label entropy_bits)
     [MUY_DEBIL; DEBIL; ACEPTABLE; FUERTE; MUY_FUERTE]
  /\ NoDup [MUY_DEBIL; DEBIL; ACEPTABLE; FUERTE; MUY_FUERTE]
  /\ ((entropy_bits <? 28)%float = true ->
      strength_label entropy_bits = MUY_DEBIL)
  /\ ((28 <=? entropy_bits)%float = true -> (entropy_bits <? 36)%float = true ->
      strength_label entropy_bits = DEBIL)
  /\ ((36 <=? entropy_bits)%float = true -> (entropy_bits <? 60)%float = true ->
      strength_label entropy_bits = ACEPTABLE)
  /\ ((60 <=? entropy_bits)%float = true -> (entropy_bits <? 80)%float = true ->
      strength_label entropy_bits = FUERTE)
  /\ ((80 <=? entropy_bits)%float = true ->
      strength_label entropy_bits = MUY_FUERTE)
  /\ strength_label 28 = DEBIL
  /\ strength_label 36 = ACEPTABLE
  /\ strength_label 60 = FUERTE
  /\ strength_label 80 = MUY_FUERTE.
Proof.
  split; [|split; [|split; [|split; [|split; [|split; [|split]]]]]].
  - unfold strength_label.
    destruct (entropy_bits <? 28)%float; [simpl; tauto|].
    destruct (entropy_bits <? 36)%float; [simpl; tauto|].
    destruct (entropy_bits <? 60)%float; [simpl; tauto|].
    destruct (entropy_bits <? 80)%float; simpl; tauto.
  - repeat constructor; vm_compute; intuition discriminate.
  - intros H. unfold strength_label. rewrite H. reflexivity.
  - intros Hlo Hhi. unfold strength_label.
    rewrite (@not_below 28 28 _ Hlo eq_refl), Hhi. reflexivity.
  - intros Hlo Hhi. unfold strength_label.
    rewrite (@not_below 36 28 _ Hlo eq_refl), (@not_below 36 36 _ Hlo eq_refl), Hhi.
    reflexivity.
  - intros Hlo Hhi. unfold strength_label.
    rewrite (@not_below 60 28 _ Hlo eq_refl), (@not_below 60 36 _ Hlo eq_refl),
      (@not_below 60 60 _ Hlo eq_refl), Hhi.
    reflexivity.
  - intros Hlo. unfold strength_label.
    rewrite (@not_below 80 28 _ Hlo eq_refl), (@not_below 80 36 _ Hlo eq_refl),
      (@not_below 80 60 _ Hlo eq_refl), (@not_below 80 80 _ Hlo eq_refl).
    reflexivity.
  - repeat split; reflexivity.
Qed.

(** The brackets at work: 30 bits is weak, and the entropy of [aaaaaaaa],
    0 bits, is very weak. *)
Lemma strength_label_thresholds_witness :
  strength_label 30 = DEBIL /\ strength_label 0 = MUY_DEBIL.
Proof.
  split.
  - exact (proj1 (proj2 (proj2 (proj2 (strength_label_thresholds 30))))
             eq_refl eq_refl).
  - exact (proj1 (proj2 (proj2 (strength_label_thresholds 0))) eq_refl).
Defined.

(** ** The breach check *)

Lemma eqb_eq (a b : pystr) : Str.eqb a b = true <-> a = b.
Proof.
  unfold Str.eqb. destruct (list_eq_dec N.eq_dec a b); split; congruence.
Qed.

(** A count the scan returns is 0 or was read, by [int], from a line whose
    suffix matches. *)
Lemma scan_result (w : World) (suffix : pystr) (lines : list pystr) (n : Z) :
  scan w suffix lines = Some n ->
  n = 0%Z
  \/ exists line count,
       In line lines /\ split colon line = [suffix; count]
       /\ py_int w count = Some n.
Proof.
  induction lines as [|line rest IH]; simpl.
  - intros [= <-]. left. reflexivity.
  - assert (Hrest : scan w suffix rest = Some n ->
                    n = 0%Z \/ exists line0 count,
                      (line = line0 \/ In line0 rest)
                      /\ split colon line0 = [suffix; count]
                      /\ py_int w count = Some n).
    { intros H. destruct (IH H) as [->|(l & c & Hin & Hs & Hi)]; [left; reflexivity|].
      right. exists l, c. auto. }
    destruct (nonempty line); simpl; [|exact Hrest].
    destruct (split colon line) as [|suf [|count [|x tl]]] eqn:Es;
      try exact Hrest.
    destruct (Str.eqb suf suffix) eqn:Eq; [|exact Hrest].
    apply eqb_eq in Eq. subst suf.
    destruct (py_int w count) as [m|] eqn:Ei; [|discriminate].
    intros [= <-]. right. exists line, count. auto.
Qed.

Lemma scan_no_match (w : World) (suffix : pystr) (lines : list pystr) :
  (forall line count, In line lines -> split colon line <> [suffix; count]) ->
  scan w suffix lines = Some 0%Z.
Proof.
  induction lines as [|line rest IH]; intros Hno; simpl; [reflexivity|].
  assert (Hrest : scan w suffix rest = Some 0%Z).
  { apply IH. intros l c Hin. apply Hno. right. exact Hin. }
  destruct (nonempty line); simpl; [|exact Hrest].
  destruct (split colon line) as [|suf [|count [|x tl]]] eqn:Es;
    try exact Hrest.
  destruct (Str.eqb suf suffix) eqn:Eq; [|exact Hrest].
  apply eqb_eq in Eq. subst suf.
  exfalso. apply (Hno line count); [left; reflexivity | exact Es].
Qed.

(** The first line that reads [suffix:count] decides the scan. *)
Lemma scan_first_match (w : World) (suffix : pystr) (pre post : list pystr)
    (line count : pystr) :
  (forall l c, In l pre -> split colon l <> [suffix; c]) ->
  split colon line = [suffix; count] ->
  scan w suffix (pre ++ line :: post) = py_int w count.
Proof.
  intros Hpre Hline. induction pre as [|a pre IH].
  - cbn [app scan]. rewrite Hline.
    destruct line as [|c0 line']; [discriminate Hline|]. cbn [nonempty negb].
    unfold Str.eqb. destruct (list_eq_dec N.eq_dec suffix suffix);
      [|contradiction].
    destruct (py_int w count); reflexivity.
  - assert (IH' : scan w suffix (pre ++ line :: post) = py_int w count)
      by (apply IH; intros l c Hl; apply Hpre; right; exact Hl).
    cbn [app scan]. destruct (nonempty a); cbn [negb]; [|exact IH'].
    destruct (split colon a) as [|suf [|cnt [|x tl]]] eqn:Es; try exact IH'.
    destruct (Str.eqb suf suffix) eqn:Eq; [|exact IH'].
    apply eqb_eq in Eq. subst suf. exfalso.
    apply (Hpre a cnt); [left; reflexivity | exact Es].
Qed.

(** A password cannot be encoded exactly when it holds a surrogate, or a code
    point beyond the last one of Unicode, which no [str] holds. *)
Lemma encode_utf8_none (s : pystr) :
  encode_utf8 s = None <->
  exists c, In c s /\ (surrogate c = true \/ (0x10FFFF < c)%N).
Proof.
  induction s as [|c r IH].
  - split; [discriminate | intros (c & [] & _)].
  - assert (Htail : surrogate c = false -> (c <= 0x10FFFF)%N ->
                    forall b : list N,
                      match encode_utf8 r with
                      | Some rest => Some (b ++ rest)
                      | None => None
                      end = None <->
                      exists c', In c' (c :: r)
                                 /\ (surrogate c' = true \/ (0x10FFFF < c')%N)).
    { intros Hs Hle b. destruct (encode_utf8 r) as [rest|].
      - split; [discriminate|]. intros (c' & [<-|Hin] & Hc').
        + destruct Hc' as [H|H]; [congruence | lia].
        + assert (H : Some rest = None)
            by (apply IH; exists c'; split; assumption).
          discriminate H.
      - split; [|reflexivity]. intros _.
        destruct (proj1 IH eq_refl) as (c' & Hin & Hc').
        exists c'. split; [right; exact Hin | exact Hc']. }
    cbn [encode_utf8]. unfold surrogate in *.
    destruct (N.ltb_spec c 0x80) as [H1|H1].
    { apply Htail; [|lia]. apply andb_false_iff. left. apply N.leb_gt. lia. }
    destruct (N.ltb_spec c 0x800) as [H2|H2].
    { apply Htail; [|lia]. apply andb_false_iff. left. apply N.leb_gt. lia. }
    destruct ((0xD800 <=? c) && (c <=? 0xDFFF))%N eqn:Hs.
    { split; [|reflexivity]. intros _. exists c.
      split; [left; reflexivity | left; exact Hs]. }
    destruct (N.ltb_spec c 0x10000) as [H3|H3].
    { apply Htail; [reflexivity | lia]. }
    destruct (N.leb_spec c 0x10FFFF) as [H4|H4].
    { apply Htail; [reflexivity | exact H4]. }
    split; [|reflexivity]. intros _. exists c.
    split; [left; reflexivity | right; exact H4].
Qed.

(** The scan consults the world only for [int]. *)
Lemma scan_ext (w w' : World) (suffix : pystr) (lines : list pystr) :
  py_int w' = py_int w -> scan w' suffix lines = scan w suffix lines.
Proof.
  intros Hint. induction lines as [|l ls IH]; [reflexivity|].
  cbn [scan]. rewrite IH, Hint. reflexivity.
Qed.

(** [pwned_count] once the digest is known and the library present. *)
Lemma pwned_count_unfold (w : World) (password d : pystr) :
  REQUESTS_AVAILABLE w = true ->
  sha1_upper password = Return d ->
  pwned_count w password =
  match requests_get w (url_of d) with
  | None => Return None
  | Some resp =>
      if negb (status_code resp =? 200)%Z then Return None
      else Return (scan w (skipn 5 d) (splitlines (text resp)))
  end.
Proof.
  intros Hav Hd. unfold pwned_count, url_of. rewrite Hav, Hd. reflexivity.
Qed.

Lemma be_bytes_length (n : nat) (x : N) :
  List.length (SHA1.be_bytes n x) = n.
Proof.
  revert x. induction n as [|n IH]; intros x; simpl; [reflexivity|].
  rewrite length_app, IH. simpl. lia.
Qed.

Lemma hexdigest_length (msg : list N) :
  List.length (SHA1.hexdigest msg) = 40.
Proof.
  unfold SHA1.hexdigest.
  assert (H : forall bs : list N,
             List.length
               (flat_map (fun b => [SHA1.hexdigit (b / 16); SHA1.hexdigit (b mod 16)]%N)
                  bs) = 2 * List.length bs).
  { induction bs as [|b bs IH]; simpl; [reflexivity|]. rewrite IH. lia. }
  rewrite H. unfold SHA1.digest.
  destruct (SHA1.blocks _ _ _) as [[[[h0 h1] h2] h3] h4].
  rewrite !length_app, !be_bytes_length. reflexivity.
Qed.

(** The digest has forty characters. *)
Lemma sha1_upper_length (password d : pystr) :
  sha1_upper password = Return d -> List.length d = 40.
Proof.
  unfold sha1_upper. destruct (encode_utf8 password); [|discriminate].
  intros [= <-]. unfold upper. rewrite length_map. apply hexdigest_length.
Qed.

(** C9: the one request of the breach check is for the fixed range URL
    followed by the first five characters of the digest; two passwords whose
    digests share those five characters produce the same request, and the
    result depends on the network only through the answer to that URL. *)
Theorem pwned_request_prefix_only (w : World) (p1 p2 d1 d2 : pystr) :
  sha1_upper p1 = Return d1 ->
  sha1_upper p2 = Return d2 ->
  firstn 5 d1 = firstn 5 d2 ->
  pwned_request w p1 = pwned_request w p2
  /\ (REQUESTS_AVAILABLE w = true ->
      pwned_request w p1 = Some (range_url ++ firstn 5 d1))
  /\ (List.length d1 = 40 /\ List.length (firstn 5 d1) = 5)
  /\ (forall w' : World,
        REQUESTS_AVAILABLE w' = REQUESTS_AVAILABLE w ->
        py_int w' = py_int w ->
        requests_get w' (range_url ++ firstn 5 d1)
        = requests_get w (range_url ++ firstn 5 d1) ->
        pwned_count w' p1 = pwned_count w p1).
Proof.
  intros H1 H2 Hpre. split; [|split; [|split]].
  - unfold pwned_request, url_of. rewrite H1, H2, Hpre. reflexivity.
  - intros Hav. unfold pwned_request, url_of. rewrite Hav, H1. reflexivity.
  - pose proof (sha1_upper_length _ H1) as Hlen.
    split; [exact Hlen|]. rewrite length_firstn, Hlen. reflexivity.
  - intros w' Hav Hint Hget.
    destruct (REQUESTS_AVAILABLE w) eqn:Ew;
      [|unfold pwned_count; rewrite Hav, Ew; reflexivity].
    rewrite (pwned_count_unfold w' p1 Hav H1), (pwned_count_unfold w p1 Ew H1).
    unfold url_of. rewrite Hget.
    destruct (requests_get w (range_url ++ firstn 5 d1)) as [resp|];
      [|reflexivity].
    destruct (negb (status_code resp =? 200)%Z); [reflexivity|].
    f_equal. apply scan_ext. exact Hint.
Qed.

(** Two passphrases of default words whose digests both start 46006. *)
Lemma pwned_request_prefix_only_witness :
  pwned_request (answering []) (lit "luna llave fuego")
  = pwned_request (answering []) (lit "estrella llave cielo")
  /\ pwned_request (answering []) (lit "luna llave fuego")
     = Some (lit "https://api.pwnedpasswords.com/range/46006").
Proof.
  destruct (@pwned_request_prefix_only (answering [])
              (lit "luna llave fuego") (lit "estrella llave cielo")
              (lit "46006DDF8BB456D210FE24A7C6CFF0001B2258BE")
              (lit "46006488AD4681145DDA2048126CA03C1E07B694"))
    as (Hsame & Hurl & _ & _).
  - vm_compute. reflexivity.
  - vm_compute. reflexivity.
  - vm_compute. reflexivity.
  - split; [exact Hsame|]. rewrite Hurl by reflexivity. vm_compute. reflexivity.
Defined.

(** C8, as the code has it: [pwned_count] returns an integer or [None] for
    every password UTF-8 can encode.  With the HTTP library present it
    raises [UnicodeEncodeError] for every password UTF-8 cannot encode,
    which are those holding a surrogate, and it raises in no other case;
    [main] catches that and records [None].  No HTTP library, a failed
    request and a status other than 200 give [None]; no matching suffix
    gives 0; otherwise the first line that reads [suffix:count] decides, the
    result being what [int] reads on it ([None] when that is not an
    integer), so an integer returned is not negative when no count of the
    response is. *)
Theorem pwned_count_outcomes (w : World) (a : Args) (password : pystr) :
  (forall bytes, encode_utf8 password = Some bytes ->
     exists r, pwned_count w password = Return r)
  /\ (forall e, pwned_count w password = Raise e ->
        e = UnicodeEncodeError
        /\ encode_utf8 password = None
        /\ REQUESTS_AVAILABLE w = true
        /\ entry_pwned_count w a password = None)
  /\ (REQUESTS_AVAILABLE w = false -> pwned_count w password = Return None)
  /\ (forall d, REQUESTS_AVAILABLE w = true -> sha1_upper password = Return d ->
        (requests_get w (url_of d) = None ->
         pwned_count w password = Return None)
        /\ (forall resp, requests_get w (url_of d) = Some resp ->
              (status_code resp <> 200%Z ->
               pwned_count w password = Return None)
              /\ (status_code resp = 200%Z ->
                  (forall line count, In line (splitlines (text resp)) ->
                     split colon line <> [skipn 5 d; count]) ->
                  pwned_count w password = Return (Some 0%Z))
              /\ (status_code resp = 200%Z ->
                  (forall line suf count n,
                     In line (splitlines (text resp)) ->
                     split colon line = [suf; count] ->
                     py_int w count = Some n -> (0 <= n)%Z) ->
                  forall n, pwned_count w password = Return (Some n) ->
                            (0 <= n)%Z)
              /\ (status_code resp = 200%Z ->
                  forall pre line post count,
                    splitlines (text resp) = pre ++ line :: post ->
                    (forall l c, In l pre ->
                       split colon l <> [skipn 5 d; c]) ->
                    split colon line = [skipn 5 d; count] ->
                    pwned_count w password = Return (py_int w count))))
  /\ (REQUESTS_AVAILABLE w = true -> encode_utf8 password = None ->
      pwned_count w password = Raise UnicodeEncodeError
      /\ entry_pwned_count w a password = None)
  /\ (encode_utf8 password = None <->
      exists c, In c password /\ (surrogate c = true \/ (0x10FFFF < c)%N)).
Proof.
  split; [|split; [|split; [|split; [|split]]]].
  - intros bytes Henc. unfold pwned_count, sha1_upper. rewrite Henc.
    destruct (negb (REQUESTS_AVAILABLE w)); [eexists; reflexivity|].
    destruct (requests_get w _) as [resp|]; [|eexists; reflexivity].
    destruct (negb (status_code resp =? 200)%Z); eexists; reflexivity.
  - intros e. unfold entry_pwned_count, pwned_count, sha1_upper.
    destruct (REQUESTS_AVAILABLE w); [|discriminate]. cbn [negb].
    destruct (encode_utf8 password) as [bytes|].
    + destruct (requests_get w _) as [resp|]; [|discriminate].
      destruct (negb (status_code resp =? 200)%Z); discriminate.
    + intros [= <-]. repeat split. destruct (check_pwned a); reflexivity.
  - intros Hav. unfold pwned_count. rewrite Hav. reflexivity.
  - intros d Hav Hd. rewrite (pwned_count_unfold w password Hav Hd).
    split; [intros ->; reflexivity|].
    intros resp ->. split; [|split; [|split]].
    + intros Hst. apply Z.eqb_neq in Hst. rewrite Hst. reflexivity.
    + intros Hst Hno. apply Z.eqb_eq in Hst. rewrite Hst. cbn [negb].
      f_equal. apply scan_no_match. exact Hno.
    + intros Hst Hpos n. apply Z.eqb_eq in Hst. rewrite Hst. cbn [negb].
      intros [= Hs]. apply scan_result in Hs as [->|(l & c & Hin & Hsp & Hi)];
        [lia|].
      eapply Hpos; eassumption.
    + intros Hst pre line post count Hlines Hpre Hline.
      apply Z.eqb_eq in Hst. rewrite Hst, Hlines. cbn [negb].
      f_equal. apply scan_first_match; assumption.
  - intros Hav Henc.
    unfold entry_pwned_count, pwned_count, sha1_upper. rewrite Hav, Henc.
    cbn [negb]. split; [reflexivity|]. destruct (check_pwned a); reflexivity.
  - apply encode_utf8_none.
Qed.

(** The digest of [password] is 5BAA6 followed by 1E4C9...; the service
    lists that suffix three times. *)
Lemma pwned_count_outcomes_witness :
  pwned_count
    (answering (lit "0018A45C4D1DEF81644B54AB7F969B88D65:1
1E4C9B93F3F0682250B6CF8331B7EE68FD8:3"))
    (lit "password") = Return (Some 3%Z)
  /\ (0 <= 3)%Z.
Proof.
  set (w := answering (lit "0018A45C4D1DEF81644B54AB7F969B88D65:1
1E4C9B93F3F0682250B6CF8331B7EE68FD8:3")).
  assert (E : pwned_count w (lit "password") = Return (Some 3%Z))
    by (vm_compute; reflexivity).
  split; [exact E|].
  destruct (pwned_count_outcomes w (password_args 12 1) (lit "password"))
    as (_ & _ & _ & H & _ & _).
  destruct (H (lit "5BAA61E4C9B93F3F0682250B6CF8331B7EE68FD8") eq_refl)
    as (_ & Hresp); [vm_compute; reflexivity|].
  destruct (Hresp {| status_code := 200;
       text := lit "0018A45C4D1DEF81644B54AB7F969B88D65:1
1E4C9B93F3F0682250B6CF8331B7EE68FD8:3" |} eq_refl)
    as (_ & _ & Hpos & _).
  apply Hpos; [reflexivity | | exact E].
  intros line suf count n Hin Hsp Hi.
  vm_compute in Hin. destruct Hin as [<-|[<-|[]]]; vm_compute in Hsp;
    injection Hsp as <- <-; vm_compute in Hi; injection Hi as <-; lia.
Defined.

(** C8 as stated fails in two ways.  A password holding a lone surrogate
    cannot be encoded, and the call raises; and a matching line with a
    negative count makes the call return that negative number. *)
Lemma pwned_count_raises_or_negative :
  pwned_count (answering []) [0xD800%N] = Raise UnicodeEncodeError
  /\ pwned_count (answering (lit "1E4C9B93F3F0682250B6CF8331B7EE68FD8:-1"))
       (lit "password") = Return (Some (-1)%Z).
Proof.
  split; vm_compute; reflexivity.
Qed.

(** ** Entropy *)

Lemma get_bump (ch c : char) (freq : dict) :
  get (bump ch freq) c
  = if char_eqb ch c then (get freq c + 1)%Z else get freq c.
Proof.
  induction freq as [|[k v] rest IH]; simpl.
  - destruct (char_eqb ch c); reflexivity.
  - unfold char_eqb in *.
    destruct (N.eqb_spec k ch) as [E|Hk]; simpl; unfold char_eqb.
    + subst k. destruct (N.eqb_spec ch c); reflexivity.
    + destruct (N.eqb_spec k c) as [E|Hc].
      * subst k. destruct (N.eqb_spec ch c); [congruence | reflexivity].
      * exact IH.
Qed.

Lemma keys_bump (ch : char) (freq : dict) :
  map fst (bump ch freq)
  = if in_dec N.eq_dec ch (map fst freq) then map fst freq
    else map fst freq ++ [ch].
Proof.
  induction freq as [|[k v] rest IH]; simpl; [reflexivity|].
  unfold char_eqb. destruct (N.eqb_spec k ch) as [E|Hk]; simpl.
  - destruct (N.eq_dec k ch); [reflexivity | congruence].
  - rewrite IH. destruct (N.eq_dec k ch); [congruence|].
    destruct (in_dec N.eq_dec ch (map fst rest)); reflexivity.
Qed.

Lemma distinct_In (s : pystr) (c : char) : In c (distinct s) <-> In c s.
Proof.
  induction s as [|a s IH]; simpl; [tauto|].
  rewrite filter_In, IH. unfold char_eqb.
  destruct (N.eqb_spec c a) as [E|Hne]; simpl; intuition congruence.
Qed.

Lemma distinct_NoDup (s : pystr) : NoDup (distinct s).
Proof.
  induction s as [|a s IH]; simpl; constructor.
  - rewrite filter_In. unfold char_eqb. rewrite N.eqb_refl.
    intros [_ H]. discriminate.
  - apply NoDup_filter. exact IH.
Qed.

Lemma distinct_snoc (s : pystr) (ch : char) :
  distinct (s ++ [ch])
  = if in_dec N.eq_dec ch s then distinct s else distinct s ++ [ch].
Proof.
  induction s as [|a s IH]; [reflexivity|].
  cbn [app distinct]. rewrite IH.
  destruct (in_dec N.eq_dec ch s) as [Hin|Hout].
  - destruct (in_dec N.eq_dec ch (a :: s)) as [_|H];
      [reflexivity | exfalso; apply H; right; exact Hin].
  - rewrite filter_app. cbn [filter]. unfold char_eqb.
    destruct (N.eqb_spec ch a) as [E|Hne]; cbn [negb].
    + destruct (in_dec N.eq_dec ch (a :: s)) as [_|H];
        [rewrite app_nil_r; reflexivity | exfalso; apply H; left; congruence].
    + destruct (in_dec N.eq_dec ch (a :: s)) as [[H|H]|_];
        [congruence | contradiction | reflexivity].
Qed.

Lemma freq_of_snoc (s : pystr) (ch : char) :
  freq_of (s ++ [ch]) = bump ch (freq_of s).
Proof. unfold freq_of. rewrite fold_left_app. reflexivity. Qed.

(** The keys are the distinct characters, first occurrence first. *)
Lemma freq_of_keys (s : pystr) : map fst (freq_of s) = distinct s.
Proof.
  induction s as [|ch s IH] using rev_ind; [reflexivity|].
  rewrite freq_of_snoc, keys_bump, distinct_snoc, IH.
  destruct (in_dec N.eq_dec ch (distinct s)) as [H|H];
    destruct (in_dec N.eq_dec ch s) as [H'|H']; try reflexivity;
    rewrite distinct_In in H; contradiction.
Qed.

(** Each key's count is the number of its occurrences. *)
Lemma freq_of_get (s : pystr) (c : char) : get (freq_of s) c = occurrences c s.
Proof.
  unfold occurrences. induction s as [|ch s IH] using rev_ind; [reflexivity|].
  rewrite freq_of_snoc, get_bump, IH, count_occ_app. cbn [count_occ].
  unfold char_eqb.
  destruct (N.eqb_spec ch c) as [E|Hne]; destruct (N.eq_dec ch c);
    try congruence.
  - rewrite Nat2Z.inj_add. reflexivity.
  - rewrite Nat.add_0_r. reflexivity.
Qed.

Lemma values_get (freq : dict) :
  NoDup (map fst freq) -> values freq = map (get freq) (map fst freq).
Proof.
  unfold values. induction freq as [|[k v] rest IH]; [reflexivity|].
  simpl. intros Hnd. inversion Hnd as [|? ? Hk Hrest]; subst.
  unfold char_eqb at 1. rewrite N.eqb_refl. f_equal.
  rewrite (IH Hrest). apply map_ext_in. intros c Hc.
  unfold char_eqb. destruct (N.eqb_spec k c) as [E|_];
    [subst k; contradiction | reflexivity].
Qed.

Lemma freq_of_values (s : pystr) :
  values (freq_of s) = map (fun c => occurrences c s) (distinct s).
Proof.
  rewrite values_get by (rewrite freq_of_keys; apply distinct_NoDup).
  rewrite freq_of_keys. apply map_ext. intros c. apply freq_of_get.
Qed.

Lemma occurrences_bounds (s : pystr) (c : char) :
  In c (distinct s) ->
  (0 < occurrences c s <= Z.of_nat (List.length s))%Z.
Proof.
  rewrite distinct_In. intros Hin. unfold occurrences.
  apply (count_occ_In N.eq_dec) in Hin.
  split.
  - apply (Nat2Z.inj_lt 0). exact Hin.
  - apply Nat2Z.inj_le. apply count_occ_bound.
Qed.

Section EntropyProperties.
Context {F : Type} {ops : FloatOps F}.

Lemma fold_accumulate_raise (len : Z) (e : exn) (counts : list Z) :
  fold_left (accumulate len) counts (Raise e) = Raise e :> outcome F.
Proof. induction counts as [|c cs IH]; [reflexivity | exact IH]. Qed.

(** The second loop subtracts the terms of the sum, in order. *)
Lemma fold_accumulate (len : Z) (counts : list Z) :
  forall h : F,
    fold_left (accumulate len) counts (Return h)
    = match minus_sum h (map (fun c => true_div c len) counts) with
      | Some x => Return x
      | None => Raise ValueError
      end.
Proof.
  induction counts as [|c cs IH]; intros h; [reflexivity|].
  cbn [fold_left map minus_sum accumulate].
  destruct (log2 (true_div c len)) as [l|].
  - apply IH.
  - apply fold_accumulate_raise.
Qed.

(** The code computes the specification's [H * len(s)]. *)
Lemma shannon_entropy_refines (s : pystr) :
  s <> [] ->
  shannon_entropy s
  = match total_bits s with
    | Some x => Return x
    | None => Raise ValueError
    end.
Proof.
  intros Hne. unfold shannon_entropy, total_bits, per_symbol_entropy.
  destruct s as [|c0 s0]; [contradiction|].
  rewrite freq_of_values, fold_accumulate, map_map.
  unfold distribution.
  destruct (minus_sum zero _); reflexivity.
Qed.

End EntropyProperties.

(** * Further properties of the code *)

(** ** How generation ends in the drivers *)

Lemma generar_passphrase_raises (w : World) (palabras : Z)
    (wordlist_path : option pystr) (t : tape) :
  unreadable w wordlist_path = true ->
  generar_passphrase w palabras wordlist_path t = Raise RuntimeError.
Proof.
  unfold unreadable, generar_passphrase, load_words.
  destruct wordlist_path as [p|]; [|discriminate].
  destruct (nonempty p); [|discriminate].
  destruct (read_text w p); [discriminate|]. reflexivity.
Qed.

Lemma load_words_returns (w : World) (wordlist_path : option pystr) :
  unreadable w wordlist_path = false ->
  exists wl, load_words w wordlist_path = Return wl.
Proof.
  unfold unreadable, load_words.
  destruct wordlist_path as [p|]; [|eexists; reflexivity].
  destruct (nonempty p); [|eexists; reflexivity].
  destruct (read_text w p) as [txt|]; [|discriminate].
  intros _. destruct (stripped_lines txt); eexists; reflexivity.
Qed.

(** X1: The generation step of [main] ends the run, by [sys.exit(1)],
    exactly when generation cannot work: no category enabled in password
    mode, an unreadable word list in passphrase mode.  Otherwise it yields a
    value.  No exception of generation escapes the two handlers: catching
    [ValueError] alone is enough in password mode. *)
Theorem generate_ending (w : World) (a : Args) (t : tape) :
  if generation_fails w a
  then generate w a t = inr (SysExit 1)
  else exists v t', generate w a t = inl (v, t').
Proof.
  unfold generation_fails, generate.
  destruct (passphrase a) eqn:Hmode.
  - destruct (unreadable w (wordlist a)) eqn:Hread.
    + rewrite (generar_passphrase_raises w (words a) (wordlist a) t Hread).
      reflexivity.
    + destruct (load_words_returns w _ Hread) as (wl & Hwl).
      destruct (generar_passphrase_returns w (words a) (wordlist a) t Hwl)
        as (s & t' & ->).
      exists s, t'. reflexivity.
  - destruct (enabled a) eqn:Hen; cbn [negb].
    + destruct (generar_contrasena_returns (longitud a) _ _ _ _ t Hen)
        as (s & t' & ->).
      exists s, t'. reflexivity.
    + unfold enabled in Hen. apply build_pool_empty in Hen.
      unfold generar_contrasena. rewrite Hen. reflexivity.
Qed.

(** X2: The older driver of [code.py] has neither the clamp nor the handler: with
    a category enabled it prints [max(0, count)] passwords; with none, a
    count of at least 1 ends in an uncaught [ValueError] with nothing
    printed, and a count below 1 prints nothing and ends normally. *)
Theorem code_main_ending (a : Args) (t : tape) :
  if enabled a
  then snd (code_main a t) = Completed
       /\ Z.of_nat (List.length (fst (code_main a t))) = Z.max 0 (count a)
  else if (1 <=? count a)%Z
       then code_main a t = ([], Uncaught ValueError)
       else code_main a t = ([], Completed).
Proof.
  unfold code_main. destruct (enabled a) eqn:Hen.
  - assert (H : forall n t0,
               snd (code_iterate a n t0) = Completed
               /\ List.length (fst (code_iterate a n t0)) = n).
    { induction n as [|n IH]; intros t0; simpl; [auto|].
      destruct (generar_contrasena_returns (longitud a) _ _ _ _ t0 Hen)
        as (s & t' & ->).
      specialize (IH t'). destruct (code_iterate a n t') as [vs e].
      simpl in *. destruct IH as [-> ->]. auto. }
    destruct (H (range_len (count a)) t) as [-> ->].
    split; [reflexivity | unfold range_len; lia].
  - destruct (Z.leb_spec 1 (count a)) as [Hc|Hc].
    + assert (Hn : exists k, range_len (count a) = S k).
      { exists (Nat.pred (range_len (count a))). unfold range_len. lia. }
      destruct Hn as (k & ->). simpl.
      unfold enabled in Hen. apply build_pool_empty in Hen.
      unfold generar_contrasena. rewrite Hen. reflexivity.
    + assert (Hn : range_len (count a) = 0%nat) by (unfold range_len; lia).
      rewrite Hn. reflexivity.
Qed.

(** ** What the sampler can draw *)

(** Any sequence of elements of [seq] is drawn from some tape. *)
Lemma times_choice_complete {A} (seq : list A) (xs : list A) :
  Forall (fun x => In x seq) xs ->
  exists t,
    times (List.length xs) (choice seq) t
    = Return (xs, advance_by (List.length xs) t).
Proof.
  induction 1 as [|x xs Hx _ (t & IH)].
  - exists zeros. reflexivity.
  - destruct (In_nth_error _ _ Hx) as (i & Hi).
    assert (Hlt : i < List.length seq)
      by (apply nth_error_Some; congruence).
    exists (draw_first i t). cbn [List.length times advance_by].
    unfold bind. destruct seq as [|x0 seq]; [destruct i; discriminate|].
    unfold choice at 1, bind, randbelow.
    change (draw_first i t 0) with i.
    rewrite (Nat.mod_small _ _ Hlt), Hi. unfold ret.
    change (advance (draw_first i t)) with t.
    rewrite IH. reflexivity.
Qed.

(** X3: The generator is complete: with a category enabled, every string over
    the pool is the password of some run of the entropy source, at the
    length of that string. *)
Theorem generar_contrasena_complete
    (minus mayus digitos simbolos : bool) (s : pystr) :
  minus || mayus || digitos || simbolos = true ->
  Forall (allowed minus mayus digitos simbolos) s ->
  exists t,
    value (generar_contrasena (Z.of_nat (List.length s))
             minus mayus digitos simbolos t) = Return s.
Proof.
  intros Hen Hs.
  assert (Hcs : Forall (fun c => In c (items (build_pool minus mayus digitos simbolos)))
                  (items s)).
  { unfold items. rewrite Forall_map. eapply Forall_impl; [|exact Hs].
    intros c Hc. apply (in_map (fun c => [c])).
    apply build_pool_allowed. exact Hc. }
  destruct (@times_choice_complete _ _ _ Hcs) as (t & Ht).
  exists t. unfold generar_contrasena.
  destruct (build_pool minus mayus digitos simbolos) as [|c0 pool] eqn:Epool.
  - apply build_pool_empty in Epool. congruence.
  - unfold bind, range_len. rewrite Nat2Z.id.
    replace (List.length s) with (List.length (items s))
      by (unfold items; apply length_map).
    rewrite Ht. unfold ret, value. f_equal.
    clear. induction s as [|c s IH]; [reflexivity|].
    destruct s as [|c' s']; [reflexivity|].
    change (join [] (items (c :: c' :: s')))
      with ([c] ++ [] ++ join [] (items (c' :: s'))).
    rewrite IH. reflexivity.
Qed.

Lemma generar_contrasena_complete_witness :
  exists t,
    value (generar_contrasena 4 true false true false t) = Return (lit "z9a0").
Proof.
  apply (@generar_contrasena_complete true false true false (lit "z9a0")).
  - reflexivity.
  - rewrite Forall_forall. intros c Hc. apply build_pool_allowed.
    vm_compute in Hc. vm_compute. tauto.
Defined.

(** ** Passphrases: failure, reach and shape *)

(** X5: [generar_passphrase] raises exactly when a non-empty path cannot be
    read, and then [RuntimeError], whatever the number of words (even none);
    otherwise it returns.  An empty path is no path. *)
Theorem generar_passphrase_failure (w : World) (palabras : Z)
    (wordlist_path : option pystr) (t : tape) :
  (if unreadable w wordlist_path
   then generar_passphrase w palabras wordlist_path t = Raise RuntimeError
   else exists s,
       value (generar_passphrase w palabras wordlist_path t) = Return s)
  /\ generar_passphrase w palabras (Some []) t
     = generar_passphrase w palabras None t.
Proof.
  split; [|reflexivity].
  destruct (unreadable w wordlist_path) eqn:Hread.
  - apply generar_passphrase_raises. exact Hread.
  - destruct (load_words_returns w _ Hread) as (wl & Hwl).
    destruct (generar_passphrase_returns w palabras wordlist_path t Hwl)
      as (s & t' & ->).
    exists s. reflexivity.
Qed.

(** Membership of every word, decided by computation. *)
Lemma all_in_sound (l ws : list pystr) :
  forallb (fun x => existsb (Str.eqb x) l) ws = true ->
  Forall (fun x => In x l) ws.
Proof.
  intros H. apply Forall_forall. intros x Hx.
  rewrite forallb_forall in H. specialize (H x Hx).
  apply existsb_exists in H as (y & Hy & E).
  apply eqb_eq in E. subst y. exact Hy.
Qed.

(** X6: Every sequence of words of the list in effect is the passphrase of some
    run of the entropy source. *)
Theorem generar_passphrase_complete (w : World)
    (wordlist_path : option pystr) (ws : list pystr) :
  unreadable w wordlist_path = false ->
  Forall (fun x => In x (words_in_effect w wordlist_path)) ws ->
  exists t,
    value (generar_passphrase w (Z.of_nat (List.length ws)) wordlist_path t)
    = Return (join [space] ws).
Proof.
  intros Hread Hws.
  destruct (load_words_returns w _ Hread) as (wl & Hwl).
  pose proof (load_words_in_effect _ _ Hwl) as Heq. subst wl.
  destruct (@times_choice_complete _ _ _ Hws) as (t & Ht).
  exists t. unfold generar_passphrase. rewrite Hwl.
  unfold bind, range_len. rewrite Nat2Z.id, Ht. reflexivity.
Qed.

Lemma generar_passphrase_complete_witness :
  exists t,
    value (generar_passphrase (with_file []) 3 None t)
    = Return (lit "cielo sol cielo").
Proof.
  apply (@generar_passphrase_complete (with_file []) None
           [lit "cielo"; lit "sol"; lit "cielo"]).
  - reflexivity.
  - apply all_in_sound. vm_compute. reflexivity.
Defined.

Lemma lstrip_head (s : pystr) (c : char) (r : pystr) :
  lstrip s = c :: r -> isspace c = false.
Proof.
  induction s as [|a s IH]; simpl; [discriminate|].
  destruct (isspace a) eqn:E; [exact IH|].
  intros [= <- _]. exact E.
Qed.

Lemma lstrip_snoc (s : pystr) (c : char) :
  isspace c = false -> lstrip (s ++ [c]) = lstrip s ++ [c].
Proof.
  intros Hc. induction s as [|a s IH]; simpl.
  - rewrite Hc. reflexivity.
  - destruct (isspace a); [exact IH | reflexivity].
Qed.

Lemma last_snoc (x : pystr) (c d : char) : last (x ++ [c]) d = c.
Proof. apply last_last. Qed.

(** What [strip] leaves, if anything, is trimmed. *)
Lemma strip_trimmed (s : pystr) : nonempty (strip s) = true -> trimmed (strip s) = true.
Proof.
  unfold strip, rstrip.
  destruct (lstrip s) as [|c r] eqn:El; [discriminate|].
  pose proof (@lstrip_head _ _ _ El) as Hc.
  cbn [rev]. rewrite (@lstrip_snoc _ _ Hc), rev_app_distr. cbn [rev app].
  intros _. unfold trimmed. rewrite Hc. cbn [negb andb].
  destruct (lstrip (rev r)) as [|d r'] eqn:Er.
  - cbn [rev app last]. rewrite Hc. reflexivity.
  - pose proof (@lstrip_head _ _ _ Er) as Hd.
    cbn [rev]. change (c :: (rev r' ++ [d])) with ((c :: rev r') ++ [d]).
    rewrite last_snoc, Hd. reflexivity.
Qed.

Lemma stripped_lines_trimmed (txt : pystr) :
  Forall (fun x => trimmed x = true) (stripped_lines txt).
Proof.
  unfold stripped_lines. rewrite Forall_map, Forall_forall.
  intros l Hl. apply filter_In in Hl as [_ Hl]. apply strip_trimmed, Hl.
Qed.

Lemma words_in_effect_trimmed (w : World) (wordlist_path : option pystr) :
  Forall (fun x => trimmed x = true) (words_in_effect w wordlist_path).
Proof.
  assert (Hd : Forall (fun x => trimmed x = true) DEFAULT_EMBEDDED_WORDLIST)
    by (apply Forall_forall, forallb_forall; vm_compute; reflexivity).
  unfold words_in_effect, configured_words.
  destruct wordlist_path as [p|]; [|exact Hd].
  destruct (nonempty p); [|exact Hd].
  destruct (read_text w p) as [txt|]; [|exact Hd].
  pose proof (stripped_lines_trimmed txt) as H.
  destruct (stripped_lines txt); [exact Hd | exact H].
Qed.

Lemma trimmed_head_last (x : pystr) :
  trimmed x = true ->
  exists c r d, x = c :: r /\ isspace c = false
                /\ last x d = last x c /\ isspace (last x c) = false.
Proof.
  destruct x as [|c r]; [discriminate|]. unfold trimmed.
  intros H. apply andb_prop in H as [H1 H2].
  apply negb_true_iff in H1. apply negb_true_iff in H2.
  exists c, r, c. auto.
Qed.

Lemma last_nonempty (x : pystr) (c d : char) :
  x <> [] -> last x c = last x d.
Proof.
  induction x as [|a x IH]; [contradiction|]. intros _.
  destruct x as [|b x']; [reflexivity|].
  change (last (b :: x') c = last (b :: x') d). apply IH. discriminate.
Qed.

Lemma last_app_nonempty (x y : pystr) (c : char) :
  y <> [] -> last (x ++ y) c = last y c.
Proof.
  intros Hy. destruct (exists_last Hy) as (y' & d & ->).
  rewrite app_assoc, !last_last. reflexivity.
Qed.

(** Joining trimmed words gives a trimmed string. *)
Lemma join_trimmed (sep : pystr) (ws : list pystr) :
  ws <> [] ->
  Forall (fun x => trimmed x = true) ws ->
  trimmed (join sep ws) = true.
Proof.
  intros Hne H. induction H as [|x ws Hx Hws IH]; [contradiction|].
  destruct ws as [|y ws']; [exact Hx|].
  change (join sep (x :: y :: ws')) with (x ++ sep ++ join sep (y :: ws')).
  specialize (IH ltac:(discriminate)).
  set (rest := join sep (y :: ws')) in *.
  destruct x as [|c r]; [discriminate|].
  destruct rest as [|c' r'] eqn:Er; [discriminate|].
  unfold trimmed in *. cbn [app].
  apply andb_prop in Hx as [Hc _]. apply andb_prop in IH as [_ Hl].
  rewrite Hc. cbn [andb].
  change (c :: r ++ sep ++ c' :: r') with ((c :: r) ++ sep ++ c' :: r').
  rewrite app_assoc, last_app_nonempty by discriminate.
  rewrite (@last_nonempty _ c c') by discriminate. exact Hl.
Qed.

(** X7: A passphrase of at least one word is not empty and has no white space
    at either end, so [strip] would leave it as it is: the words of a file
    are stripped, and those of the embedded list are clean. *)
Theorem generar_passphrase_trimmed (w : World) (palabras : Z)
    (wordlist_path : option pystr) (t : tape) (s : pystr) :
  (1 <= palabras)%Z ->
  value (generar_passphrase w palabras wordlist_path t) = Return s ->
  trimmed s = true /\ strip s = s.
Proof.
  intros Hpos H. apply generar_passphrase_inv in H as (ws & -> & Hlen & Hws).
  assert (Ht : trimmed (join [space] ws) = true).
  { apply join_trimmed.
    - intros ->. simpl in Hlen. unfold range_len in Hlen. lia.
    - rewrite Forall_forall in *. intros x Hx.
      pose proof (words_in_effect_trimmed w wordlist_path) as Hall.
      rewrite Forall_forall in Hall. apply Hall, Hws, Hx. }
  split; [exact Ht|].
  generalize dependent (join [space] ws). intros x Hx.
  destruct x as [|c r]; [discriminate|].
  unfold trimmed in Hx. apply andb_prop in Hx as [Hc Hl].
  apply negb_true_iff in Hc. apply negb_true_iff in Hl.
  unfold strip, rstrip. cbn [lstrip]. rewrite Hc.
  destruct (exists_last (l := c :: r) ltac:(discriminate)) as (x' & d & E).
  rewrite E in *. rewrite last_snoc in Hl.
  rewrite rev_app_distr. cbn [rev app lstrip]. rewrite Hl.
  cbn [rev]. rewrite rev_involutive. reflexivity.
Qed.

Lemma generar_passphrase_trimmed_witness :
  trimmed (lit "sol luna estrella") = true
  /\ strip (lit "sol luna estrella") = lit "sol luna estrella".
Proof.
  apply (@generar_passphrase_trimmed (with_file []) 3 None (fun i => i)).
  - lia.
  - vm_compute. reflexivity.
Defined.

(** ** The breach check: what is sent and which line counts *)

Lemma be_bytes_bound (n : nat) (x : N) :
  Forall (fun b => (b < 256)%N) (SHA1.be_bytes n x).
Proof.
  revert x. induction n as [|n IH]; intros x; simpl; [constructor|].
  apply Forall_app. split; [apply IH|].
  constructor; [|constructor]. apply N.mod_lt. discriminate.
Qed.

Lemma digest_bound (msg : list N) :
  Forall (fun b => (b < 256)%N) (SHA1.digest msg).
Proof.
  unfold SHA1.digest.
  destruct (SHA1.blocks _ _ _) as [[[[h0 h1] h2] h3] h4].
  rewrite !Forall_app. repeat split; apply be_bytes_bound.
Qed.

Lemma upper_hexdigit (d : N) :
  (d < 16)%N -> forallb is_upper_hex (upper [SHA1.hexdigit d]) = true.
Proof.
  intros Hd. unfold SHA1.hexdigit, upper, is_upper_hex. cbn [map forallb].
  rewrite andb_true_r.
  destruct (N.ltb_spec d 10).
  - replace ((97 <=? 48 + d) && (48 + d <=? 122))%N with false
      by (symmetry; apply andb_false_iff; left; apply N.leb_gt; lia).
    apply orb_true_iff. left. apply andb_true_iff.
    split; apply N.leb_le; lia.
  - replace ((97 <=? 87 + d) && (87 + d <=? 122))%N with true
      by (symmetry; apply andb_true_iff; split; apply N.leb_le; lia).
    apply orb_true_iff. right. apply andb_true_iff.
    split; apply N.leb_le; lia.
Qed.

(** X8: The digest is forty upper-case hexadecimal digits, so the request is the
    fixed URL followed by five characters from [0-9A-F] and nothing else. *)
Theorem sha1_upper_format (w : World) (password d : pystr) :
  sha1_upper password = Return d ->
  List.length d = 40
  /\ forallb is_upper_hex d = true
  /\ (REQUESTS_AVAILABLE w = true ->
      exists u, pwned_request w password = Some (range_url ++ u)
                /\ List.length u = 5
                /\ forallb is_upper_hex u = true).
Proof.
  intros Hd. pose proof (sha1_upper_length _ Hd) as Hlen.
  assert (Hhex : forallb is_upper_hex d = true).
  { unfold sha1_upper in Hd.
    destruct (encode_utf8 password) as [bytes|]; [|discriminate].
    injection Hd as <-. unfold SHA1.hexdigest.
    pose proof (digest_bound bytes) as Hb.
    induction Hb as [|b bs Hb _ IH]; [reflexivity|].
    cbn [flat_map app]. unfold upper in *. cbn [map forallb].
    rewrite IH.
    pose proof (@upper_hexdigit (b / 16)) as H1.
    pose proof (@upper_hexdigit (b mod 16)) as H2.
    unfold upper in H1, H2. cbn [map forallb] in H1, H2.
    rewrite andb_true_r in H1, H2.
    rewrite H1, H2; [reflexivity | apply N.mod_lt; discriminate |].
    apply N.Div0.div_lt_upper_bound. exact Hb. }
  split; [exact Hlen|]. split; [exact Hhex|].
  intros Hav. exists (firstn 5 d). split; [|split].
  - unfold pwned_request, url_of. rewrite Hav, Hd. reflexivity.
  - rewrite length_firstn, Hlen. reflexivity.
  - rewrite <- (firstn_skipn 5 d), forallb_app in Hhex.
    apply andb_prop in Hhex as [H _]. exact H.
Qed.

Lemma sha1_upper_format_witness :
  exists u,
    pwned_request (answering []) (lit "río montaña") = Some (range_url ++ u)
    /\ List.length u = 5
    /\ forallb is_upper_hex u = true.
Proof.
  destruct (@sha1_upper_format (answering []) (lit "río montaña")
              (lit "967C37AEDBE3112F24E084EBA0F547DB31F267FA"))
    as (_ & _ & H).
  - vm_compute. reflexivity.
  - apply H. reflexivity.
Defined.

Lemma split_length (sep : char) (s : pystr) :
  List.length (split sep s) = S (count_occ N.eq_dec s sep).
Proof.
  induction s as [|c r IH]; [reflexivity|].
  cbn [split count_occ]. unfold char_eqb.
  destruct (N.eqb_spec c sep) as [E|Hne]; destruct (N.eq_dec c sep);
    try contradiction.
  - cbn [List.length]. rewrite IH. reflexivity.
  - destruct (split sep r) as [|p ps]; [discriminate IH|]. exact IH.
Qed.

(** A line that does not read [suffix:count] makes no difference. *)
Lemma scan_skip (w : World) (suffix line : pystr) (rest : list pystr) :
  (forall count, split colon line <> [suffix; count]) ->
  scan w suffix (line :: rest) = scan w suffix rest.
Proof.
  intros Hno. cbn [scan].
  destruct (nonempty line); cbn [negb]; [|reflexivity].
  destruct (split colon line) as [|suf [|count [|x tl]]] eqn:Es;
    try reflexivity.
  destruct (Str.eqb suf suffix) eqn:Eq; [|reflexivity].
  apply eqb_eq in Eq. subst suf. exfalso. apply (Hno count). reflexivity.
Qed.

Lemma scan_app_congr (w : World) (suffix : pystr) (pre l1 l2 : list pystr) :
  scan w suffix l1 = scan w suffix l2 ->
  scan w suffix (pre ++ l1) = scan w suffix (pre ++ l2).
Proof.
  intros H. induction pre as [|a pre IH]; [exact H|].
  cbn [app scan]. rewrite IH. reflexivity.
Qed.

(** X9: The scan ignores every line that is not [suffix:count]: a blank line, a
    line with no colon or with more than one, a line for another suffix.
    Taking such a line out of the response changes nothing. *)
Theorem scan_ignores (w : World) (suffix line : pystr) (pre post : list pystr) :
  (count_occ N.eq_dec line colon <> 1
   \/ hd [] (split colon line) <> suffix) ->
  scan w suffix (pre ++ line :: post) = scan w suffix (pre ++ post).
Proof.
  intros Hbad. apply scan_app_congr, scan_skip.
  intros count Hs. destruct Hbad as [Hc|Hh].
  - pose proof (split_length colon line) as Hl. rewrite Hs in Hl.
    cbn [List.length] in Hl. apply Hc. congruence.
  - apply Hh. rewrite Hs. reflexivity.
Qed.

Lemma scan_ignores_witness :
  scan (answering []) (lit "AB")
    ([lit "CD:1"] ++ lit "AB:7:9" :: [lit "AB:3"])
  = scan (answering []) (lit "AB") ([lit "CD:1"] ++ [lit "AB:3"]).
Proof.
  apply (@scan_ignores (answering []) (lit "AB") (lit "AB:7:9")
           [lit "CD:1"] [lit "AB:3"]).
  left. vm_compute. discriminate.
Defined.

(** X10: The first line that reads [suffix:count] decides: [pwned_count] returns
    what [int] makes of its count, [None] when that is not an integer, and
    does not look at the lines after it. *)
Theorem pwned_count_first_match (w : World) (password d : pystr)
    (resp : response) (pre post : list pystr) (line count : pystr) :
  REQUESTS_AVAILABLE w = true ->
  sha1_upper password = Return d ->
  requests_get w (url_of d) = Some resp ->
  status_code resp = 200%Z ->
  splitlines (text resp) = pre ++ line :: post ->
  (forall l c, In l pre -> split colon l <> [skipn 5 d; c]) ->
  split colon line = [skipn 5 d; count] ->
  pwned_count w password = Return (py_int w count).
Proof.
  intros Hav Hd Hget Hst Hlines Hpre Hline.
  rewrite (pwned_count_unfold w password Hav Hd), Hget, Hst, Hlines.
  cbn [Z.eqb negb]. f_equal.
  clear Hlines. induction pre as [|a pre IH].
  - cbn [app scan]. rewrite Hline.
    destruct line as [|c0 line']; [discriminate Hline|]. cbn [nonempty negb].
    unfold Str.eqb. destruct (list_eq_dec N.eq_dec _ _); [|contradiction].
    destruct (py_int w count); reflexivity.
  - cbn [app]. rewrite scan_skip.
    + apply IH. intros l c Hl. apply Hpre. right. exact Hl.
    + intros c. apply Hpre. left. reflexivity.
Qed.

(** The suffix of [password] is listed twice; the first count is not a
    number, so the answer is [None] and the 5 is never read. *)
Lemma pwned_count_first_match_witness :
  pwned_count
    (answering (lit "1E4C9B93F3F0682250B6CF8331B7EE68FD8:many
1E4C9B93F3F0682250B6CF8331B7EE68FD8:5"))
    (lit "password") = Return None.
Proof.
  apply (@pwned_count_first_match
           (answering (lit "1E4C9B93F3F0682250B6CF8331B7EE68FD8:many
1E4C9B93F3F0682250B6CF8331B7EE68FD8:5"))
           (lit "password") (lit "5BAA61E4C9B93F3F0682250B6CF8331B7EE68FD8")
           {| status_code := 200;
              text := lit "1E4C9B93F3F0682250B6CF8331B7EE68FD8:many
1E4C9B93F3F0682250B6CF8331B7EE68FD8:5" |}
           [] [lit "1E4C9B93F3F0682250B6CF8331B7EE68FD8:5"]
           (lit "1E4C9B93F3F0682250B6CF8331B7EE68FD8:many") (lit "many")).
  - reflexivity.
  - vm_compute. reflexivity.
  - reflexivity.
  - reflexivity.
  - vm_compute. reflexivity.
  - intros l c [].
  - vm_compute. reflexivity.
Defined.

(** ** Strength labels: the brackets read backwards, and monotonicity *)

Lemma SF_lt_le_trans (x a b : spec_float) :
  SFltb x a = true -> SFleb a b = true -> SFltb x b = true.
Proof.
  unfold SFleb, SFltb, SFcompare.
  change (Pos.compare_cont Eq) with Pos.compare.
  destruct a as [sa|sa| |sa ma ea], x as [sx|sx| |sx mx ex],
    b as [sb|sb| |sb mb eb];
    try destruct sa; try destruct sx; try destruct sb;
    try discriminate; try reflexivity;
    intros H1 H2; try discriminate H1; try discriminate H2.
  all: cmp_cases; subst; simpl in *;
    try discriminate; try reflexivity; try lia.
Qed.

(** Of two comparable values, one is below the other or the other is at
    most the one. *)
Lemma SF_lt_or_le (x a b : spec_float) :
  a <> S754_nan -> SFltb x b = true -> SFltb x a = false -> SFleb a x = true.
Proof.
  unfold SFleb, SFltb, SFcompare.
  change (Pos.compare_cont Eq) with Pos.compare.
  destruct a as [sa|sa| |sa ma ea], x as [sx|sx| |sx mx ex],
    b as [sb|sb| |sb mb eb];
    try destruct sa; try destruct sx; try destruct sb;
    try discriminate; try reflexivity; try congruence;
    intros _ H1 H2; try discriminate H1; try discriminate H2.
  all: cmp_cases; subst; simpl in *;
    try discriminate; try reflexivity; try lia.
Qed.

Lemma below_larger (x a b : float) :
  (x <? a)%float = true -> (a <=? b)%float = true -> (x <? b)%float = true.
Proof.
  rewrite !ltb_spec, leb_spec. apply SF_lt_le_trans.
Qed.

Lemma at_least (x a b : float) :
  Prim2SF a <> S754_nan ->
  (x <? b)%float = true -> (x <? a)%float = false -> (a <=? x)%float = true.
Proof.
  rewrite !ltb_spec, leb_spec. apply SF_lt_or_le.
Qed.

Lemma label_ranks :
  label_rank MUY_DEBIL = 0 /\ label_rank DEBIL = 1 /\ label_rank ACEPTABLE = 2
  /\ label_rank FUERTE = 3 /\ label_rank MUY_FUERTE = 4.
Proof. repeat split; vm_compute; reflexivity. Qed.

(** The label, as four comparisons decide it. *)
Lemma strength_label_rank (x : float) :
  label_rank (strength_label x)
  = if (x <? 28)%float then 0
    else if (x <? 36)%float then 1
    else if (x <? 60)%float then 2
    else if (x <? 80)%float then 3
    else 4.
Proof.
  destruct label_ranks as (H0 & H1 & H2 & H3 & H4). unfold strength_label.
  destruct (x <? 28)%float; [exact H0|].
  destruct (x <? 36)%float; [exact H1|].
  destruct (x <? 60)%float; [exact H2|].
  destruct (x <? 80)%float; [exact H3 | exact H4].
Qed.

(** A label is known by its rank. *)
Lemma strength_label_by_rank (x : float) :
  (strength_label x = MUY_DEBIL <-> label_rank (strength_label x) = 0)
  /\ (strength_label x = DEBIL <-> label_rank (strength_label x) = 1)
  /\ (strength_label x = ACEPTABLE <-> label_rank (strength_label x) = 2)
  /\ (strength_label x = FUERTE <-> label_rank (strength_label x) = 3)
  /\ (strength_label x = MUY_FUERTE <-> label_rank (strength_label x) = 4).
Proof.
  destruct label_ranks as (H0 & H1 & H2 & H3 & H4).
  assert (Hin : In (strength_label x)
                  [MUY_DEBIL; DEBIL; ACEPTABLE; FUERTE; MUY_FUERTE]).
  { unfold strength_label.
    destruct (x <? 28)%float; [simpl; tauto|].
    destruct (x <? 36)%float; [simpl; tauto|].
    destruct (x <? 60)%float; [simpl; tauto|].
    destruct (x <? 80)%float; simpl; tauto. }
  destruct Hin as [<-|[<-|[<-|[<-|[<-|[]]]]]];
    rewrite ?H0, ?H1, ?H2, ?H3, ?H4;
    repeat split; intros H; try reflexivity; try discriminate H;
    apply (f_equal label_rank) in H;
    rewrite ?H0, ?H1, ?H2, ?H3, ?H4 in H; discriminate H.
Qed.

(** A value not below a threshold is not below a smaller one. *)
Lemma not_below_smaller (x a b : float) :
  (a <=? b)%float = true -> (x <? b)%float = false -> (x <? a)%float = false.
Proof.
  intros Hab Hb. destruct (x <? a)%float eqn:E; [|reflexivity].
  rewrite (@below_larger _ _ _ E Hab) in Hb. discriminate.
Qed.

(** X11: Each label is given to its bracket only, except that the top label is
    given to everything not below 80, NaN included: a label tells the
    bracket the value is in. *)
Theorem strength_label_inverse (entropy_bits : float) :
  (strength_label entropy_bits = MUY_DEBIL <-> (entropy_bits <? 28)%float = true)
  /\ (strength_label entropy_bits = DEBIL <->
      (28 <=? entropy_bits)%float = true /\ (entropy_bits <? 36)%float = true)
  /\ (strength_label entropy_bits = ACEPTABLE <->
      (36 <=? entropy_bits)%float = true /\ (entropy_bits <? 60)%float = true)
  /\ (strength_label entropy_bits = FUERTE <->
      (60 <=? entropy_bits)%float = true /\ (entropy_bits <? 80)%float = true)
  /\ (strength_label entropy_bits = MUY_FUERTE <->
      (entropy_bits <? 80)%float = false)
  /\ strength_label nan = MUY_FUERTE.
Proof.
  destruct (strength_label_by_rank entropy_bits) as (R0 & R1 & R2 & R3 & R4).
  rewrite R0, R1, R2, R3, R4, strength_label_rank. clear R0 R1 R2 R3 R4.
  set (x := entropy_bits).
  split; [|split; [|split; [|split; [|split]]]].
  - destruct (x <? 28)%float; [tauto|].
    destruct (x <? 36)%float, (x <? 60)%float, (x <? 80)%float;
      split; discriminate.
  - split.
    + destruct (x <? 28)%float eqn:E28; [discriminate|].
      destruct (x <? 36)%float eqn:E36.
      * intros _. split; [|reflexivity].
        apply (@at_least x 28 36); [discriminate | exact E36 | exact E28].
      * destruct (x <? 60)%float, (x <? 80)%float; discriminate.
    + intros [Hlo Hhi].
      rewrite (@not_below 28 28 _ Hlo eq_refl), Hhi. reflexivity.
  - split.
    + destruct (x <? 28)%float eqn:E28; [discriminate|].
      destruct (x <? 36)%float eqn:E36; [discriminate|].
      destruct (x <? 60)%float eqn:E60.
      * intros _. split; [|reflexivity].
        apply (@at_least x 36 60); [discriminate | exact E60 | exact E36].
      * destruct (x <? 80)%float; discriminate.
    + intros [Hlo Hhi].
      rewrite (@not_below 36 28 _ Hlo eq_refl),
        (@not_below 36 36 _ Hlo eq_refl), Hhi. reflexivity.
  - split.
    + destruct (x <? 28)%float eqn:E28; [discriminate|].
      destruct (x <? 36)%float eqn:E36; [discriminate|].
      destruct (x <? 60)%float eqn:E60; [discriminate|].
      destruct (x <? 80)%float eqn:E80; [|discriminate].
      intros _. split; [|reflexivity].
      apply (@at_least x 60 80); [discriminate | exact E80 | exact E60].
    + intros [Hlo Hhi].
      rewrite (@not_below 60 28 _ Hlo eq_refl),
        (@not_below 60 36 _ Hlo eq_refl),
        (@not_below 60 60 _ Hlo eq_refl), Hhi. reflexivity.
  - split.
    + destruct (x <? 28)%float; [discriminate|].
      destruct (x <? 36)%float; [discriminate|].
      destruct (x <? 60)%float; [discriminate|].
      destruct (x <? 80)%float; [discriminate | reflexivity].
    + intros E80.
      rewrite (@not_below_smaller x 28 80 eq_refl E80),
        (@not_below_smaller x 36 80 eq_refl E80),
        (@not_below_smaller x 60 80 eq_refl E80), E80. reflexivity.
  - reflexivity.
Qed.

(** X12: More entropy never gets a weaker label. *)
Theorem strength_label_monotone (x y : float) :
  (x <=? y)%float = true ->
  label_rank (strength_label x) <= label_rank (strength_label y).
Proof.
  intros Hxy. rewrite !strength_label_rank.
  assert (H : forall c : float, (y <? c)%float = true -> (x <? c)%float = true).
  { intros c. rewrite leb_spec in Hxy. rewrite !ltb_spec.
    apply SF_le_lt_trans. exact Hxy. }
  pose proof (H 28%float) as H28. pose proof (H 36%float) as H36.
  pose proof (H 60%float) as H60. pose proof (H 80%float) as H80.
  destruct (y <? 28)%float; [rewrite H28 by reflexivity; lia|].
  destruct (y <? 36)%float;
    [rewrite H36 by reflexivity; destruct (x <? 28)%float; lia|].
  destruct (y <? 60)%float;
    [rewrite H60 by reflexivity;
     destruct (x <? 28)%float, (x <? 36)%float; lia|].
  destruct (y <? 80)%float;
    [rewrite H80 by reflexivity;
     destruct (x <? 28)%float, (x <? 36)%float, (x <? 60)%float; lia|].
  destruct (x <? 28)%float, (x <? 36)%float, (x <? 60)%float,
    (x <? 80)%float; lia.
Qed.

Lemma strength_label_monotone_witness :
  label_rank (strength_label 35.5) <= label_rank (strength_label 36).
Proof.
  apply (@strength_label_monotone 35.5 36). reflexivity.
Defined.

(** ** The pool *)

(** X13: No character occurs twice in a pool, so none is weighted, and the
    pool has 26, 26, 10 and 25 characters for the categories enabled. *)
Theorem build_pool_size (minus mayus digitos simbolos : bool) :
  NoDup (build_pool minus mayus digitos simbolos)
  /\ List.length (build_pool minus mayus digitos simbolos)
     = (if minus then 26 else 0) + (if mayus then 26 else 0)
       + (if digitos then 10 else 0) + (if simbolos then 25 else 0).
Proof.
  split.
  - assert (H : nodup N.eq_dec (build_pool minus mayus digitos simbolos)
                = build_pool minus mayus digitos simbolos)
      by (destruct minus, mayus, digitos, simbolos; vm_compute; reflexivity).
    rewrite <- H. apply NoDup_nodup.
  - destruct minus, mayus, digitos, simbolos; reflexivity.
Qed.

(** ** The frequency table *)

Lemma sum_bump (ch : char) (freq : dict) :
  sum_Z (values (bump ch freq)) = (sum_Z (values freq) + 1)%Z.
Proof.
  unfold values. induction freq as [|[k v] rest IH]; simpl; [reflexivity|].
  destruct (char_eqb k ch); simpl; [lia|]. rewrite IH. lia.
Qed.

Lemma freq_of_sum (s : pystr) :
  sum_Z (values (freq_of s)) = Z.of_nat (List.length s).
Proof.
  induction s as [|ch s IH] using rev_ind; [reflexivity|].
  rewrite freq_of_snoc, sum_bump, IH, length_app. cbn [List.length].
  rewrite Nat2Z.inj_add. reflexivity.
Qed.

(** X14: The table the first loop builds has one entry per distinct character of
    the string, in order of first occurrence; each count is the number of
    occurrences, at least 1, and the counts add up to the length. *)
Theorem freq_of_table (s : pystr) :
  map fst (freq_of s) = distinct s
  /\ NoDup (map fst (freq_of s))
  /\ (forall c, In c (map fst (freq_of s)) <-> In c s)
  /\ (forall c v, In (c, v) (freq_of s) ->
        v = occurrences c s /\ (1 <= v <= Z.of_nat (List.length s))%Z)
  /\ sum_Z (values (freq_of s)) = Z.of_nat (List.length s).
Proof.
  split; [apply freq_of_keys|]. split; [|split; [|split]].
  - rewrite freq_of_keys. apply distinct_NoDup.
  - intros c. rewrite freq_of_keys. apply distinct_In.
  - intros c v Hin.
    assert (Hk : In c (distinct s)).
    { rewrite <- freq_of_keys. apply (in_map fst) in Hin. exact Hin. }
    assert (Hv : v = occurrences c s).
    { rewrite <- freq_of_get.
      assert (Hnd : NoDup (map fst (freq_of s)))
        by (rewrite freq_of_keys; apply distinct_NoDup).
      revert Hin Hnd. generalize (freq_of s). intros f.
      induction f as [|[k u] rest IH]; [contradiction|].
      cbn [map fst get]. intros Hin Hnd.
      inversion Hnd as [|? ? Hk' Hrest]; subst.
      unfold char_eqb. destruct (N.eqb_spec k c) as [E|Hne].
      - subst k. destruct Hin as [H|H]; [congruence|].
        exfalso. apply Hk'. apply (in_map fst) in H. exact H.
      - destruct Hin as [H|H]; [congruence|]. apply IH; assumption. }
    split; [exact Hv|]. subst v.
    pose proof (occurrences_bounds s c Hk). lia.
  - apply freq_of_sum.
Qed.

(** ** Entropy: what it depends on *)

Section EntropyShape.
Context {F : Type} {ops : FloatOps F}.

Lemma length_from_counts (s : pystr) :
  Z.of_nat (List.length s)
  = sum_Z (map (fun c => occurrences c s) (distinct s)).
Proof. rewrite <- freq_of_values. symmetry. apply freq_of_sum. Qed.

(** X15: The estimate ignores where the characters stand: two strings with the
    same characters in the same order of first occurrence, each as often,
    get the same result, bit for bit. *)
Theorem shannon_entropy_positions (s s' : pystr) :
  distinct s = distinct s' ->
  (forall c, occurrences c s = occurrences c s') ->
  shannon_entropy s = shannon_entropy s' :> outcome F.
Proof.
  intros Hd Ho.
  assert (Hlen : Z.of_nat (List.length s) = Z.of_nat (List.length s')).
  { rewrite !length_from_counts, Hd. f_equal. apply map_ext. exact Ho. }
  destruct s as [|c0 s0], s' as [|c1 s1]; try reflexivity;
    try discriminate Hd.
  rewrite !shannon_entropy_refines by discriminate.
  unfold total_bits, per_symbol_entropy, distribution.
  rewrite Hd, Hlen.
  replace (map (fun c => true_div (occurrences c (c0 :: s0))
                           (Z.of_nat (List.length (c1 :: s1))))
             (distinct (c1 :: s1)))
    with (map (fun c => true_div (occurrences c (c1 :: s1))
                          (Z.of_nat (List.length (c1 :: s1))))
            (distinct (c1 :: s1)))
    by (apply map_ext; intros c; rewrite Ho; reflexivity).
  reflexivity.
Qed.

Lemma distinct_repeat (c : char) (n : nat) : distinct (repeat c (S n)) = [c].
Proof.
  induction n as [|n IH]; [reflexivity|].
  change (repeat c (S (S n))) with (c :: repeat c (S n)).
  cbn [distinct]. rewrite IH. cbn [filter]. unfold char_eqb.
  rewrite N.eqb_refl. reflexivity.
Qed.

(** X16: A string of one character repeated makes a single term, with the
    frequency [n / n]. *)
Theorem shannon_entropy_constant (c : char) (n : nat) (l : F) :
  log2 (true_div (Z.of_nat (S n)) (Z.of_nat (S n))) = Some l ->
  shannon_entropy (repeat c (S n))
  = Return (fmul (fsub zero
                    (fmul (true_div (Z.of_nat (S n)) (Z.of_nat (S n))) l))
              (of_int (Z.of_nat (S n)))).
Proof.
  set (len := Z.of_nat (S n)). intros Hl.
  pose proof (distinct_repeat c n) as Hd.
  assert (Ho : occurrences c (repeat c (S n)) = len).
  { unfold occurrences, len. f_equal.
    rewrite count_occ_repeat_eq by reflexivity. reflexivity. }
  rewrite shannon_entropy_refines by discriminate.
  unfold total_bits, per_symbol_entropy, distribution.
  rewrite Hd, repeat_length. cbn [map minus_sum]. rewrite Ho.
  fold len. rewrite Hl. reflexivity.
Qed.

End EntropyShape.

(** Over the reals, [abab] and [aabb] get the same estimate. *)
Lemma shannon_entropy_positions_witness :
  shannon_entropy (lit "abab") = shannon_entropy (lit "aabb") :> outcome R.
Proof.
  apply (@shannon_entropy_positions R real_ops (lit "abab") (lit "aabb")).
  - reflexivity.
  - intros c. unfold occurrences. f_equal. cbn [lit]. vm_compute lit.
    cbn [count_occ].
    destruct (N.eq_dec 97 c), (N.eq_dec 98 c); reflexivity.
Defined.

(** Over the reals the estimate of [aaaaaaaa] is 0. *)
Lemma shannon_entropy_constant_witness :
  shannon_entropy (lit "aaaaaaaa") = Return 0%R.
Proof.
  assert (Hp : (IZR 8 / IZR 8 = 1)%R) by (unfold Rdiv; apply Rinv_r; lra).
  assert (Hl : @log2 R real_ops (true_div 8 8) = Some (ln 1 / ln 2)%R).
  { cbn [log2 true_div real_ops]. rewrite Hp.
    destruct (Rlt_dec 0 1) as [_|H]; [reflexivity | exfalso; apply H; lra]. }
  refine (eq_trans
            (@shannon_entropy_constant R real_ops 97%N 7 (ln 1 / ln 2)%R Hl) _).
  f_equal. cbn [fmul fsub zero true_div of_int real_ops].
  rewrite ln_1. unfold Rdiv. rewrite Rmult_0_l, Rmult_0_r, Rminus_0_r.
  apply Rmult_0_l.
Defined.

(** ** Where the CSV goes *)

(** X17: CSV is written only when [--csv] is given.  It goes to standard output
    exactly when the argument, stripped, is [-] or empty, and otherwise to
    the file named by the stripped argument: white space around the name is
    dropped, and no file named [-] is ever written. *)
Theorem csv_output_destination (arg : pystr) :
  csv_output None = None
  /\ (csv_output (Some arg) = Some Stdout <->
      strip arg = dash \/ strip arg = [])
  /\ (forall p, csv_output (Some arg) = Some (File p) <->
                p = strip arg /\ p <> dash /\ p <> [])
  /\ (forall p, csv_output (Some arg) = Some (File p) -> trimmed p = true).
Proof.
  assert (Hfile : forall p, csv_output (Some arg) = Some (File p) <->
                            p = strip arg /\ p <> dash /\ p <> []).
  { intros p. unfold csv_output, csv_path, salida_csv.
    destruct (Str.eqb (strip arg) dash) eqn:E.
    - apply eqb_eq in E. split; [discriminate|]. intros (-> & H & _).
      contradiction.
    - assert (Hne : strip arg <> dash)
        by (intros H; apply eqb_eq in H; congruence).
      destruct (strip arg) as [|c r] eqn:Es; cbn [nonempty].
      + split; [discriminate|]. intros (-> & _ & H). contradiction.
      + split.
        * intros [= <-]. repeat split; [exact Hne | discriminate].
        * intros (-> & _ & _). reflexivity. }
  split; [reflexivity|]. split; [|split; [exact Hfile|]].
  - unfold csv_output, csv_path, salida_csv.
    destruct (Str.eqb (strip arg) dash) eqn:E.
    + apply eqb_eq in E. split; [intros _; left; exact E | reflexivity].
    + assert (Hne : strip arg <> dash)
        by (intros H; apply eqb_eq in H; congruence).
      destruct (strip arg) as [|c r] eqn:Es; cbn [nonempty].
      * split; [intros _; right; reflexivity | reflexivity].
      * split; [discriminate|]. intros [H|H]; [contradiction | discriminate].
  - intros p Hp. apply Hfile in Hp as (-> & _ & Hne).
    apply strip_trimmed. destruct (strip arg); [contradiction | reflexivity].
Qed.

(** ** A word list file and the list loaded from it *)

Lemma readlines_line (x rest : pystr) :
  ~ In 10%N x -> readlines (x ++ 10%N :: rest) = (x ++ [10%N]) :: readlines rest.
Proof.
  induction x as [|c x IH]; intros Hx; [reflexivity|].
  cbn [app readlines]. unfold char_eqb.
  destruct (N.eqb_spec c 10) as [E|_].
  - exfalso. apply Hx. left. exact E.
  - rewrite IH; [reflexivity|]. intros H. apply Hx. right. exact H.
Qed.

Lemma lstrip_trimmed (x : pystr) : trimmed x = true -> lstrip x = x.
Proof.
  destruct x as [|c r]; [discriminate|]. unfold trimmed.
  intros H. apply andb_prop in H as [H _]. apply negb_true_iff in H.
  cbn [lstrip]. rewrite H. reflexivity.
Qed.

Lemma strip_line (x : pystr) : trimmed x = true -> strip (x ++ [10%N]) = x.
Proof.
  intros Hx.
  assert (Hhead : lstrip (x ++ [10%N]) = x ++ [10%N]).
  { destruct x as [|c r]; [discriminate|]. unfold trimmed in Hx.
    apply andb_prop in Hx as [Hc _]. apply negb_true_iff in Hc.
    cbn [app lstrip]. rewrite Hc. reflexivity. }
  assert (Hlast : exists x' d, x = x' ++ [d] /\ isspace d = false).
  { destruct x as [|c r]; [discriminate|]. unfold trimmed in Hx.
    apply andb_prop in Hx as [_ Hl]. apply negb_true_iff in Hl.
    destruct (exists_last (l := c :: r) ltac:(discriminate)) as (x' & d & E).
    exists x', d. split; [exact E|]. rewrite E, last_snoc in Hl. exact Hl. }
  destruct Hlast as (x' & d & -> & Hd).
  unfold strip, rstrip. rewrite Hhead, rev_unit. cbn [lstrip].
  replace (isspace 10%N) with true by reflexivity.
  rewrite rev_unit. cbn [lstrip]. rewrite Hd.
  cbn [rev]. rewrite rev_involutive. reflexivity.
Qed.

Lemma stripped_lines_text (ws : list pystr) :
  Forall (fun x => trimmed x = true /\ ~ In 10%N x) ws ->
  stripped_lines (lines_text ws) = ws.
Proof.
  unfold stripped_lines, lines_text.
  induction 1 as [|x ws [Hx Hnl] _ IH]; [reflexivity|].
  cbn [flat_map]. rewrite <- app_assoc. cbn [app].
  rewrite (@readlines_line _ _ Hnl). cbn [filter].
  rewrite (@strip_line _ Hx).
  replace (nonempty x) with true
    by (destruct x; [discriminate Hx | reflexivity]).
  cbn [map]. rewrite (@strip_line _ Hx), IH. reflexivity.
Qed.

(** X19: A file that holds words one per line, each line ended by a line
    feed, loads as exactly those words, in order: for at least one word,
    each trimmed and with no line feed or carriage return in it (so that
    reading the file in text mode changes nothing), the list
    [generar_passphrase] draws from is the list written. *)
Theorem load_words_of_file (w : World) (path : pystr) (ws : list pystr) :
  nonempty path = true ->
  ws <> [] ->
  Forall (fun x => trimmed x = true /\ ~ In 10%N x /\ ~ In 13%N x) ws ->
  read_text w path = Some (lines_text ws) ->
  load_words w (Some path) = Return ws
  /\ words_in_effect w (Some path) = ws.
Proof.
  intros Hpath Hne Hws Hread.
  assert (Hws' : Forall (fun x => trimmed x = true /\ ~ In 10%N x) ws)
    by (eapply Forall_impl; [|exact Hws]; intros x (H1 & H2 & _); auto).
  assert (H : load_words w (Some path) = Return ws).
  { unfold load_words. rewrite Hpath, Hread, (@stripped_lines_text _ Hws').
    destruct ws; [contradiction | reflexivity]. }
  split; [exact H|]. symmetry. apply load_words_in_effect. exact H.
Qed.

Lemma load_words_of_file_witness :
  load_words (with_file (lit "correct horse
battery
staple
")) (Some (lit "words.txt"))
  = Return [lit "correct horse"; lit "battery"; lit "staple"].
Proof.
  apply (@load_words_of_file (with_file (lit "correct horse
battery
staple
")) (lit "words.txt") [lit "correct horse"; lit "battery"; lit "staple"]).
  - reflexivity.
  - discriminate.
  - repeat constructor; try (vm_compute; reflexivity);
      vm_compute; intuition discriminate.
  - reflexivity.
Defined.

(** ** Generated passwords and the breach check *)

Lemma encode_ascii (s : pystr) :
  Forall (fun c => (c < 128)%N) s -> encode_utf8 s = Some s.
Proof.
  induction 1 as [|c s Hc _ IH]; [reflexivity|].
  cbn [encode_utf8]. rewrite IH.
  apply N.ltb_lt in Hc. rewrite Hc. reflexivity.
Qed.

Lemma build_pool_ascii (minus mayus digitos simbolos : bool) :
  Forall (fun c => (c < 128)%N) (build_pool minus mayus digitos simbolos).
Proof.
  apply Forall_forall. intros c Hc.
  assert (H : forallb (fun c => (c <? 128)%N)
                (build_pool minus mayus digitos simbolos) = true)
    by (destruct minus, mayus, digitos, simbolos; vm_compute; reflexivity).
  rewrite forallb_forall in H. apply N.ltb_lt. apply H. exact Hc.
Qed.

(** X20: Every generated password is ASCII, so it encodes to itself and
    [pwned_count] never raises on it: for the passwords of a run, the
    handler around the call in [main] is never needed. *)
Theorem generated_password_checkable (w : World)
    (longitud : Z) (minus mayus digitos simbolos : bool) (t : tape) (s : pystr) :
  value (generar_contrasena longitud minus mayus digitos simbolos t) = Return s ->
  encode_utf8 s = Some s
  /\ exists r, pwned_count w s = Return r.
Proof.
  intros H. apply generar_contrasena_inv in H as (cs & -> & _ & Hcs).
  apply join_empty_In in Hcs.
  assert (Henc : encode_utf8 (join [] cs) = Some (join [] cs)).
  { apply encode_ascii. rewrite Forall_forall in *. intros c Hc.
    pose proof (build_pool_ascii minus mayus digitos simbolos) as Hp.
    rewrite Forall_forall in Hp. apply Hp, Hcs, Hc. }
  split; [exact Henc|].
  unfold pwned_count, sha1_upper. rewrite Henc.
  destruct (negb (REQUESTS_AVAILABLE w)); [eexists; reflexivity|].
  destruct (requests_get w _) as [resp|]; [|eexists; reflexivity].
  destruct (negb (status_code resp =? 200)%Z); eexists; reflexivity.
Qed.

Lemma generated_password_checkable_witness :
  encode_utf8 (lit "ahov") = Some (lit "ahov")
  /\ exists r, pwned_count (answering []) (lit "ahov") = Return r.
Proof.
  apply (@generated_password_checkable (answering []) 4 true true true false
           (fun i => 7 * i)).
  vm_compute. reflexivity.
Defined.

(** ** Entropy: the sum the loops compute *)

Section EntropyFormula.
Context {F : Type} {ops : FloatOps F}.

Lemma minus_sum_none (ps : list F) :
  forall h : F,
    minus_sum h ps = None -> exists p, In p ps /\ log2 p = None.
Proof.
  induction ps as [|p ps IH]; intros h; cbn [minus_sum]; [discriminate|].
  destruct (log2 p) as [l|] eqn:El.
  - intros H. destruct (IH _ H) as (q & Hq & Hl).
    exists q. split; [right; exact Hq | exact Hl].
  - intros _. exists p. split; [left; reflexivity | exact El].
Qed.

(** X21: Whatever the float arithmetic, [shannon_entropy] returns 0.0 for the
    empty string, and for any other string the two loops compute the sum of
    the specification: [H * len(s)], where [H] takes [p * log2(p)] off 0.0
    for each distinct character in order of first occurrence, [p] being its
    count over the length.  It raises only [ValueError], and only when
    [math.log2] is undefined at the frequency of a character of the
    string. *)
Theorem shannon_entropy_formula (s : pystr) :
  shannon_entropy [] = Return zero
  /\ (s <> [] ->
      shannon_entropy s
      = match total_bits s with
        | Some bits => Return bits
        | None => Raise ValueError
        end)
  /\ (forall e, shannon_entropy s = Raise e ->
        e = ValueError
        /\ exists c, In c s
                     /\ log2 (true_div (occurrences c s)
                                (Z.of_nat (List.length s))) = None).
Proof.
  split; [reflexivity|]. split; [apply shannon_entropy_refines|].
  intros e He. destruct s as [|c0 s0]; [discriminate He|].
  rewrite shannon_entropy_refines in He by discriminate.
  unfold total_bits, per_symbol_entropy in He.
  destruct (minus_sum zero (distribution (c0 :: s0))) as [h|] eqn:Eh;
    [discriminate He|].
  injection He as <-. split; [reflexivity|].
  destruct (minus_sum_none _ _ Eh) as (p & Hp & Hl).
  unfold distribution in Hp. apply in_map_iff in Hp as (c & <- & Hc).
  exists c. split; [apply distinct_In; exact Hc | exact Hl].
Qed.

End EntropyFormula.
